(** * A shallow embedding of the linked-list set library (set.c / set.h)

    The C library keeps the members of a set in a singly-linked chain of
    heap-allocated [member] cells; the [set] header holds [size], the
    [match] and [destroy] function pointers and the [head] / [tail]
    pointers.  This file models:
    - the member cells as a heap [gmap loc member], shared by all sets;
    - the set headers ([Set *]) as values [option set] (None = NULL);
    - the caller's [Set **] handles as [handle];
    - malloc as an allocator with a fresh-location counter whose outcomes
      (success / NULL) are read from an oracle list [mallocs];
    - free as recording the location in [freed] (the cell is not reused:
      fresh locations are never recycled);
    - undefined behaviour (NULL dereference, call through a NULL function
      pointer, read of a location that was never allocated, a loop that
      never reaches NULL) as the failure [None] of the state monad. *)

From Stdlib Require Import ZArith Lia.
From stdpp Require Import base gmap list.

Definition loc := nat.

(** [struct _member_ { void *data; struct _member_ *next; }] *)
Record member (A : Type) := Member { data : A; next : option loc }.
Arguments Member {A} _ _.
Arguments data {A} _.
Arguments next {A} _.

(** [typedef struct { int size; match; destroy; head; tail; } set;] *)
Record set (A : Type) := MkSet {
  size : Z;
  match_ : option (A -> A -> Z);
  destroy : option (A -> unit);
  head : option loc;
  tail : option loc
}.
Arguments MkSet {A} _ _ _ _ _.
Arguments size {A} _.
Arguments match_ {A} _.
Arguments destroy {A} _.
Arguments head {A} _.
Arguments tail {A} _.

(** A [Set **] argument: NULL, or the address of a caller's [Set *]
    variable, whose current contents are given. *)
Inductive handle (A : Type) := NullHandle | Handle (p : option (set A)).
Arguments NullHandle {A}.
Arguments Handle {A} _.

(** The machine state. *)
Record state (A : Type) := MkState {
  heap : gmap loc (member A);
  fresh : loc;
  freed : list loc;
  released : list A;   (** payloads handed to a set's destroy function *)
  mallocs : list bool  (** outcomes of the coming malloc calls; [] = all succeed *)
}.
Arguments MkState {A} _ _ _ _ _.
Arguments heap {A} _.
Arguments fresh {A} _.
Arguments freed {A} _.
Arguments released {A} _.
Arguments mallocs {A} _.

(** ** The state monad with undefined behaviour *)

Definition M (A X : Type) := state A -> option (X * state A).

Definition ret {A X} (x : X) : M A X := fun st => Some (x, st).
Definition bind {A X Y} (m : M A X) (k : X -> M A Y) : M A Y :=
  fun st => match m st with Some (x, st') => k x st' | None => None end.
Definition fault {A X} : M A X := fun _ => None.

Notation "'do' x <- m ; k" := (bind m (fun x => k))
  (at level 200, x name, m at level 100, k at level 200).
Notation "'do' ' p <- m ; k" := (bind m (fun x => match x with p => k end))
  (at level 200, p pattern, m at level 100, k at level 200).

Section SetC.
Context {A : Type}.
Local Open Scope Z_scope.

(** Loops over a chain run at most one step per allocated cell plus one:
    a longer walk revisits a cell, so the C loop would never reach NULL. *)
Definition with_fuel {X} (k : nat -> M A X) : M A X :=
  fun st => k (S (fresh st)) st.

(** [p->field] for a member cell. *)
Definition load (l : loc) : M A (member A) :=
  fun st => match heap st !! l with Some m => Some (m, st) | None => None end.

Definition store (l : loc) (m : member A) : M A unit :=
  fun st => Some (tt, MkState (<[l := m]> (heap st)) (fresh st) (freed st)
                              (released st) (mallocs st)).

(** [p->next = n] *)
Definition store_next (l : loc) (n : option loc) : M A unit :=
  do m <- load l; store l (Member (data m) n).

(** [malloc]: a fresh location, or NULL when the oracle says so. *)
Definition malloc : M A (option loc) :=
  fun st =>
    let '(ok, rest) := match mallocs st with b :: r => (b, r) | [] => (true, []) end in
    if ok then Some (Some (fresh st),
                     MkState (heap st) (S (fresh st)) (freed st) (released st) rest)
    else Some (None, MkState (heap st) (fresh st) (freed st) (released st) rest).

(** [free(old)] on a member cell. *)
Definition free_member (l : loc) : M A unit :=
  fun st => Some (tt, MkState (heap st) (fresh st) (l :: freed st)
                              (released st) (mallocs st)).

(** A call of the set's destroy function on a payload. *)
Definition release (x : A) : M A unit :=
  fun st => Some (tt, MkState (heap st) (fresh st) (freed st)
                              (released st ++ [x]) (mallocs st)).

(** [set->match(x, y)]; a NULL match pointer faults. *)
Definition call_match (s : set A) (x y : A) : M A Z :=
  match match_ s with Some f => ret (f x y) | None => fault end.

Definition set_with_head (s : set A) (h : option loc) : set A :=
  MkSet (size s) (match_ s) (destroy s) h (tail s).
Definition set_with_tail (s : set A) (t : option loc) : set A :=
  MkSet (size s) (match_ s) (destroy s) (head s) t.
Definition set_with_size (s : set A) (n : Z) : set A :=
  MkSet n (match_ s) (destroy s) (head s) (tail s).

(** [#define set_isempty(set) (set_size(set) == 0 ? 1 : 0)] *)
Definition set_isempty (s : set A) : bool := Z.eqb (size s) 0.

(** ** set_create *)
Definition set_create (mt : option (A -> A -> Z)) (ds : option (A -> unit))
  : M A (option (set A)) :=
  do p <- malloc;
  match p with
  | None => ret None
  | Some _ => ret (Some (MkSet 0 mt ds None None))
  end.

(** ** set_ismember *)
(** [while ((set->match(current->data, data) != 1) && set_next(current));
     if (current != NULL) return set->match(current->data, data);
     else return 0;] *)
Fixpoint ismember_scan (fuel : nat) (s : set A) (d : A) (cur : loc) : M A Z :=
  match fuel with
  | O => fault
  | S fuel =>
      do m <- load cur;
      do r <- call_match s (data m) d;
      if Z.eqb r 1 then call_match s (data m) d
      else match next m with
           | None => ret 0
           | Some n => ismember_scan fuel s d n
           end
  end.

Definition set_ismember (s : option (set A)) (d : option A) : M A Z :=
  match s, d with
  | Some s, Some d =>
      if set_isempty s then ret 0
      else match head s with
           | None => fault
           | Some h => with_fuel (fun n => ismember_scan n s d h)
           end
  | _, _ => ret (-1)
  end.

(** ** set_insert *)
Definition set_insert (s : option (set A)) (d : option A) : M A (Z * option (set A)) :=
  match d with
  | None => ret (-1, s)
  | Some d =>
      do r <- set_ismember s (Some d);
      if negb (Z.eqb r 0) then ret (1, s)
      else match s with
      | None => fault
      | Some s =>
          do p <- malloc;
          match p with
          | None => fault            (* new->data = data on a NULL pointer *)
          | Some new =>
              do _ <- store new (Member d None);
              if set_isempty s then
                do _ <- store_next new None;
                ret (0, Some (set_with_size
                               (set_with_tail (set_with_head s (Some new)) (Some new))
                               (size s + 1)))
              else match tail s with
                   | None => fault
                   | Some t =>
                       do _ <- store_next t (Some new);
                       do _ <- store_next new None;
                       ret (0, Some (set_with_size (set_with_tail s (Some new))
                                                   (size s + 1)))
                   end
          end
      end
  end.

(** ** set_remove
    [data] is the caller's [void *] variable, read and written back. *)
Fixpoint remove_scan (fuel : nat) (s : set A) (d : A) (cur : loc) : M A loc :=
  match fuel with
  | O => fault
  | S fuel =>
      do cm <- load cur;
      match next cm with
      | None => fault
      | Some n =>
          do nm <- load n;
          do r <- call_match s (data nm) d;
          if Z.eqb r 1 then ret cur else remove_scan fuel s d n
      end
  end.

Definition remove_finish (s : set A) (o : loc) (om : member A)
  : M A (Z * option (set A) * option A) :=
  do _ <- free_member o;
  ret (0, Some (set_with_size s (size s - 1)), Some (data om)).

Definition set_remove (s : option (set A)) (d : option A)
  : M A (Z * option (set A) * option A) :=
  do r <- set_ismember s d;
  if andb (negb (Z.eqb r 1)) (bool_decide (d <> None)) then ret (-1, s, d)
  else match s with
  | None => fault
  | Some s =>
      match head s with
      | None => fault
      | Some h =>
          match d with
          | None =>
              do old <- load h;
              let s1 := set_with_head s (next old) in
              let s2 := match next old with None => set_with_tail s1 None | Some _ => s1 end in
              remove_finish s2 h old
          | Some d =>
              do cur <- load h;
              do r1 <- call_match s (data cur) d;
              if negb (Z.eqb r1 1) then
                do c <- with_fuel (fun n => remove_scan n s d h);
                do cm <- load c;
                match next cm with
                | None => fault
                | Some o =>
                    do om <- load o;
                    do _ <- (if bool_decide (Some o = tail s)
                             then store_next c None
                             else store_next c (next om));
                    remove_finish s o om
                end
              else
                let s1 := set_with_head s (next cur) in
                let s2 := match next cur with None => set_with_tail s1 None | Some _ => s1 end in
                remove_finish s2 h cur
          end
      end
  end.

(** ** set_destroy *)
Fixpoint destroy_loop (fuel : nat) (s : set A) : M A unit :=
  match fuel with
  | O => fault
  | S fuel =>
      if Z.ltb 0 (size s) then
        match head s with
        | None => fault
        | Some h =>
            do m <- load h;
            let s' := set_with_size (set_with_head s (next m)) (size s - 1) in
            do _ <- free_member h;
            do _ <- (match destroy s with Some _ => release (data m) | None => ret tt end);
            destroy_loop fuel s'
        end
      else ret tt
  end.

Definition set_destroy (h : handle A) : M A (handle A) :=
  match h with
  | NullHandle => fault              (* set_size of *set, with set == NULL *)
  | Handle None => fault             (* the size field of *set, with *set == NULL *)
  | Handle (Some s) =>
      do _ <- destroy_loop (S (Z.to_nat (size s))) s;
      ret (Handle None)
  end.

(** ** set_union_func *)

(** [sets[i]]; reading past the array is undefined behaviour. *)
Definition sets_at (sets : list (option (set A))) (i : nat) : M A (option (set A)) :=
  match sets !! i with Some s => ret s | None => fault end.

(** [for (Member *current = set->head; current != NULL; set_next(current))
       if (set_insert( *setu, current->data) < 0) goto error_exception;]
    The status is 0 when the loop ends, -1 when it jumps to the handler. *)
Fixpoint union_members (fuel : nat) (out : set A) (p : option loc) : M A (Z * set A) :=
  match p with
  | None => ret (0, out)
  | Some c =>
      match fuel with
      | O => fault
      | S fuel =>
          do m <- load c;
          do '(r, o) <- set_insert (Some out) (Some (data m));
          match o with
          | None => fault
          | Some out' =>
              if Z.ltb r 0 then ret (-1, out')
              else do m' <- load c; union_members fuel out' (next m')
          end
      end
  end.

(** [for (Set *set = sets[i]; set != NULL; set = sets[i++]) ...] with
    [i = 0]: the loop visits [sets[0]], then [sets[0]] again, then
    [sets[1]], [sets[2]], ... up to the NULL terminator. *)
Fixpoint union_sets (fuel : nat) (sets : list (option (set A))) (i : nat)
  (cur : option (set A)) (out : set A) : M A (Z * set A) :=
  match cur with
  | None => ret (0, out)
  | Some s =>
      match fuel with
      | O => fault
      | S fuel =>
          do '(r, out') <- with_fuel (fun n => union_members n out (head s));
          if Z.ltb r 0 then ret (-1, out')
          else do nxt <- sets_at sets i; union_sets fuel sets (S i) nxt out'
      end
  end.

Definition set_union_func (setu : handle A) (sets : list (option (set A)))
  : M A (Z * handle A) :=
  do s0 <- sets_at sets 0;
  match s0, setu with
  | None, _ | _, NullHandle => ret (-1, setu)
  | Some s0, Handle cur =>
      let body (out : set A) : M A (Z * handle A) :=
        do '(r, out') <- union_sets (S (S (length sets))) sets 0 (Some s0) out;
        if Z.ltb r 0 then
          do h <- set_destroy (Handle (Some out')); ret (-1, h)   (* error_exception *)
        else ret (0, Handle (Some out')) in
      match cur with
      | None =>
          do c <- set_create (match_ s0) (destroy s0);
          match c with
          | None => ret (-1, Handle None)
          | Some out => body out
          end
      | Some o => if Z.ltb 0 (size o) then ret (-1, setu) else body o
      end
  end.

(** [#define set_union(Setu, ...) (set_union_func(Setu, (set * []){__VA_ARGS__, NULL}))] *)
Definition set_union (setu : handle A) (args : list (option (set A))) : M A (Z * handle A) :=
  set_union_func setu (args ++ [None]).

(** ** set_intersection_func *)

(** [while (sets[j] != NULL && !nonmember)
       nonmember = !set_ismember((const Set * )sets[j++], current->data);] *)
Fixpoint inter_check (fuel : nat) (sets : list (option (set A))) (j : nat) (d : A)
  (nonmember : bool) : M A bool :=
  match fuel with
  | O => fault
  | S fuel =>
      do sj <- sets_at sets j;
      match sj with
      | None => ret nonmember
      | Some _ =>
          if nonmember then ret nonmember
          else do r <- set_ismember sj (Some d);
               inter_check fuel sets (S j) d (Z.eqb r 0)
      end
  end.

(** The loop over [( *sets)->head]; [set_insert]'s result is ignored. *)
Fixpoint inter_members (fuel : nat) (sets : list (option (set A))) (out : set A)
  (p : option loc) : M A (set A) :=
  match p with
  | None => ret out
  | Some c =>
      match fuel with
      | O => fault
      | S fuel =>
          do m <- load c;
          do nonmember <- inter_check (S (length sets)) sets 1 (data m) false;
          do out' <- (if nonmember then ret out
                      else do '(_, o) <- set_insert (Some out) (Some (data m));
                           match o with Some o => ret o | None => fault end);
          do m' <- load c;
          inter_members fuel sets out' (next m')
      end
  end.

Definition set_intersection_func (seti : handle A) (sets : list (option (set A)))
  : M A (Z * handle A) :=
  do s0 <- sets_at sets 0;
  match s0, seti with
  | None, _ | _, NullHandle => ret (-1, seti)
  | Some s0, Handle cur =>
      let body (out : set A) : M A (Z * handle A) :=
        do out' <- with_fuel (fun n => inter_members n sets out (head s0));
        ret (0, Handle (Some out')) in
      match cur with
      | None =>
          do c <- set_create (match_ s0) (destroy s0);
          match c with
          | None => ret (-1, Handle None)
          | Some out => body out
          end
      | Some o => if Z.ltb 0 (size o) then ret (-1, seti) else body o
      end
  end.

Definition set_intersection (seti : handle A) (args : list (option (set A)))
  : M A (Z * handle A) :=
  set_intersection_func seti (args ++ [None]).

(** ** set_difference *)

(** [if (!set_ismember(set2, current->data))
       if (set_insert( *setd, current->data) != 0) goto error_exception;] *)
Fixpoint diff_members (fuel : nat) (s2 : set A) (out : set A) (p : option loc)
  : M A (Z * set A) :=
  match p with
  | None => ret (0, out)
  | Some c =>
      match fuel with
      | O => fault
      | S fuel =>
          do m <- load c;
          do r <- set_ismember (Some s2) (Some (data m));
          do '(r', out') <-
            (if Z.eqb r 0 then
               do '(ri, o) <- set_insert (Some out) (Some (data m));
               match o with Some o => ret (ri, o) | None => fault end
             else ret (0, out));
          if negb (Z.eqb r' 0) then ret (-1, out')
          else do m' <- load c; diff_members fuel s2 out' (next m')
      end
  end.

Definition set_difference (setd : handle A) (s1 s2 : option (set A)) : M A (Z * handle A) :=
  match setd, s1, s2 with
  | Handle _, Some s1, Some s2 =>
      do c <- set_create (match_ s1) (destroy s1);       (* *setd = set_create(...) *)
      match c with
      | None => ret (-1, Handle None)
      | Some out =>
          do '(r, out') <- with_fuel (fun n => diff_members n s2 out (head s1));
          if Z.ltb r 0 then
            do h <- set_destroy (Handle (Some out')); ret (-1, h)
          else ret (0, Handle (Some out'))
      end
  | _, _, _ => ret (-1, setd)
  end.

(** ** set_issubset *)
Fixpoint subset_scan (fuel : nat) (s2 : set A) (p : option loc) : M A Z :=
  match p with
  | None => ret 1
  | Some c =>
      match fuel with
      | O => fault
      | S fuel =>
          do m <- load c;
          do r <- set_ismember (Some s2) (Some (data m));
          if Z.eqb r 0 then ret 0
          else do m' <- load c; subset_scan fuel s2 (next m')
      end
  end.

Definition set_issubset (s1 s2 : option (set A)) : M A Z :=
  match s1, s2 with
  | Some s1, Some s2 =>
      if andb (set_isempty s1) (negb (set_isempty s2)) then ret 1
      else with_fuel (fun n => subset_scan n s2 (head s1))
  | _, _ => ret 0
  end.

(** ** set_traverse
    [func] is the caller's function pointer; its effect on the rest of
    the program is modelled as a transformer of a state [B] that the set's
    member cells are not part of. *)
Fixpoint traverse_loop {B} (fuel : nat) (func : A -> B -> B) (p : option loc) (b : B) : M A B :=
  match p with
  | None => ret b
  | Some c =>
      match fuel with
      | O => fault
      | S fuel =>
          do m <- load c;
          let b' := func (data m) b in
          do m' <- load c;
          traverse_loop fuel func (next m') b'
      end
  end.

Definition set_traverse {B} (s : option (set A)) (func : A -> B -> B) (b : B) : M A (Z * B) :=
  match s with
  | None => ret (-1, b)
  | Some s =>
      if set_isempty s then ret (-1, b)
      else do b' <- with_fuel (fun n => traverse_loop n func (head s) b); ret (0, b')
  end.

(** ** set_isequal
    Its loop is the loop of [set_issubset]: [subset_scan]. *)
Definition set_isequal (s1 s2 : option (set A)) : M A Z :=
  match s1, s2 with
  | Some s1, Some s2 =>
      if negb (Z.eqb (size s1) (size s2)) then ret 0
      else with_fuel (fun n => subset_scan n s2 (head s1))
  | _, _ => ret 0
  end.

(** ** The removal loop of [main] (set.c, under CONFIG_DEBUG_SET)
    [while (set_size(set) > 0) {
       pNum = NULL;
       if (set_remove(set, &pNum) < 0) error_exit("Error in set_remove");
       else printf("int %d @ %p\n", *pNum, pNum);
       free(pNum);
     }]
    The result lists the printed payloads; [true] flags the [error_exit].
    [free(pNum)] hands the payload back like [release]. *)
Fixpoint drain_loop (fuel : nat) (s : set A) : M A (bool * list A * set A) :=
  match fuel with
  | O => fault
  | S fuel =>
      if Z.ltb 0 (size s) then
        do '(r, s', d) <- set_remove (Some s) None;
        match s' with
        | None => fault
        | Some s' =>
            if Z.ltb r 0 then ret (true, [], s')
            else match d with
                 | None => fault              (* *pNum with pNum == NULL *)
                 | Some x =>
                     do _ <- release x;
                     do '(e, xs, s'') <- drain_loop fuel s';
                     ret (e, x :: xs, s'')
                 end
        end
      else ret (false, [], s)
  end.

(** The loop, then [set_destroy(&set)] (unless the program exited). *)
Definition main_drain (s : set A) : M A (bool * list A * handle A) :=
  do '(e, xs, s') <- with_fuel (fun n => drain_loop n s);
  if e then ret (e, xs, Handle (Some s'))
  else do h <- set_destroy (Handle (Some s')); ret (e, xs, h).

End SetC.

(** ** The test harness's instance: [int *] payloads compared by [match] *)

(** [int match(const void *one, const void *two)] on two non-NULL payloads. *)
Definition int_match (a b : Z) : Z := if Z.eqb a b then 1%Z else 0%Z.

Definition init_state : state Z := MkState ∅ 0 [] [] [].

(** The insertion loop of [main]: [while (set_size(set) < 10)] insert
    [rand() % 10], freeing the value when [set_insert] does not keep it.
    [rands] are the successive results of [rand()]. *)
Fixpoint fill_loop (fuel : nat) (rands : list Z) (s : set Z) : M Z (list Z * set Z) :=
  match fuel with
  | O => fault
  | S fuel =>
      if Z.ltb (size s) 10 then
        match rands with
        | [] => fault
        | r :: rs =>
            let x := Z.rem r 10 in
            do '(rt, o) <- set_insert (Some s) (Some x);
            match o with
            | None => fault
            | Some s' =>
                do _ <- (if Z.eqb rt 0 then ret tt else release x);
                fill_loop fuel rs s'
            end
        end
      else ret (rands, s)
  end.

(** The standard test of [main]: [set_create(match, free)] (exiting when
    it fails), the insertion loop, then the removal loop and [set_destroy]. *)
Definition main_run (rands : list Z) : M Z (bool * list Z * handle Z) :=
  do c <- set_create (Some int_match) (Some (fun _ => tt));
  match c with
  | None => ret (true, [], Handle None)
  | Some s =>
      do '(_, s') <- fill_loop (S (length rands)) rands s;
      main_drain s'
  end.

(** The members reachable from [p] by next-links (at most [fuel] of them). *)
Fixpoint walk {A} (fuel : nat) (h : gmap loc (member A)) (p : option loc) : list A :=
  match fuel, p with
  | S fuel, Some l =>
      (match h !! l with Some m => data m :: walk fuel h (next m) | None => [] end)
  | _, _ => []
  end.

(** [set_create(match, NULL)] followed by [set_insert] of each value. *)
Fixpoint insert_all (s : option (set Z)) (xs : list Z) : M Z (option (set Z)) :=
  match xs with
  | [] => ret s
  | x :: xs => do '(_, s') <- set_insert s (Some x); insert_all s' xs
  end.

Definition prep (xs : list Z) : M Z (option (set Z)) :=
  do c <- set_create (Some int_match) None; insert_all c xs.

(** * Representation of a well-formed set *)

Section Repr.
Context {A : Type}.
Implicit Types (st : state A) (s : set A) (ls : list loc) (xs : list A).

(** [chain h p ls xs]: following next-links from [p] visits the cells [ls]
    holding the payloads [xs] and ends at NULL. *)
Inductive chain (h : gmap loc (member A)) : option loc -> list loc -> list A -> Prop :=
| chain_nil : chain h None [] []
| chain_cons l m ls xs :
    h !! l = Some m -> chain h (next m) ls xs -> chain h (Some l) (l :: ls) (data m :: xs).

(** The invariants of the data model: the chain from [head] is finite and
    acyclic, [size] counts it and [tail] is its last cell. *)
Record set_ok st s ls xs : Prop := {
  ok_chain : chain (heap st) (head s) ls xs;
  ok_size : size s = Z.of_nat (length ls);
  ok_tail : tail s = last ls;
  ok_nodup : NoDup ls;
  ok_bound : Forall (fun l => l < fresh st)%nat ls
}.

(** Membership per [match], as [set_ismember] tests it. *)
Definition mem_by (f : A -> A -> Z) (xs : list A) (d : A) : bool :=
  existsb (fun x => Z.eqb (f x d) 1) xs.

(** No two members match (an earlier one against a later one). *)
Fixpoint nodup_by (f : A -> A -> Z) (xs : list A) : Prop :=
  match xs with
  | [] => True
  | x :: xs => Forall (fun y => f x y <> 1%Z) xs /\ nodup_by f xs
  end.

(** Inserting [x] into a set holding [acc]: appended unless it matches. *)
Definition add_by (f : A -> A -> Z) (acc : list A) (x : A) : list A :=
  if mem_by f acc x then acc else acc ++ [x].

(** An input set whose chain lies entirely below location [F]. *)
Definition input_ok (st : state A) (F : nat) (s : set A) (xs : list A) : Prop :=
  exists ls, chain (heap st) (head s) ls xs /\ NoDup ls /\ Forall (fun l => l < F)%nat ls.

(** Every [malloc] from now on succeeds. *)
Definition alloc_ok st : Prop := Forall (fun b => b = true) (mallocs st).

(** The other inputs of an intersection: well-formed sets below [F],
    queried with [match] [f]. *)
Definition member_ok (st : state A) (F : nat) (f : A -> A -> Z) (s : set A) (xs : list A) : Prop :=
  exists ls, set_ok st s ls xs /\ match_ s = Some f /\ Forall (fun l => l < F)%nat ls.

(** An executable reading of the chain from [p] (at most [fuel] cells). *)
Fixpoint chain_check (fuel : nat) (h : gmap loc (member A)) (p : option loc)
  : option (list loc * list A) :=
  match p with
  | None => Some ([], [])
  | Some l =>
      match fuel with
      | O => None
      | S fuel =>
          match h !! l with
          | None => None
          | Some m =>
              match chain_check fuel h (next m) with
              | Some (ls, xs) => Some (l :: ls, data m :: xs)
              | None => None
              end
          end
      end
  end.

(** An executable check of [set_ok]: the cells and payloads of the set. *)
Definition set_ok_check (st : state A) (s : set A) : option (list loc * list A) :=
  match chain_check (S (fresh st)) (heap st) (head s) with
  | Some (ls, xs) =>
      if bool_decide (size s = Z.of_nat (length ls) /\ tail s = last ls /\ NoDup ls /\
                      Forall (fun l => l < fresh st)%nat ls)
      then Some (ls, xs) else None
  | None => None
  end.

End Repr.

(** * Concrete runs of the test harness *)

(** Fixes the outcomes of the next [malloc] calls (allocation failure
    injection for the harness). *)
Definition with_mallocs {A} (bs : list bool) : M A unit :=
  fun st => Some (tt, MkState (heap st) (fresh st) (freed st) (released st) bs).

(** [prep] of each list in turn. *)
Fixpoint prep_all (xss : list (list Z)) : M Z (list (option (set Z))) :=
  match xss with
  | [] => ret []
  | xs :: xss => do s <- prep xs; do r <- prep_all xss; ret (s :: r)
  end.

Definition no_set : set Z := MkSet 0%Z None None None None.

(** The state after [prep_all xss] from the initial state. *)
Definition ex_state (xss : list (list Z)) : state Z :=
  match prep_all xss init_state with Some (_, st) => st | None => init_state end.

(** The [i]-th set built by [prep_all xss]. *)
Definition ex_set (xss : list (list Z)) (i : nat) : set Z :=
  match prep_all xss init_state with
  | Some (l, _) => match l !! i with Some (Some s) => s | _ => no_set end
  | None => no_set
  end.

(** The union of {0,1,2} and {2,4,6} when the first member cell of the
    output cannot be allocated. *)
Definition union_fail_run : M Z (Z * handle Z) :=
  do a <- prep [0; 1; 2]%Z; do b <- prep [2; 4; 6]%Z;
  do _ <- with_mallocs [true; false];
  set_union (Handle None) [a; b].

(** {1,2}: remove 2 (the tail member), then insert 3. *)
Definition remove_tail_run : M Z (Z * Z * option (set Z)) :=
  do s <- prep [1; 2]%Z;
  do '(r1, s1, _) <- set_remove s (Some 2%Z);
  do '(r2, s2) <- set_insert s1 (Some 3%Z);
  ret (r1, r2, s2).

(** The intersection of the single set {0,1,2}. *)
Definition single_inter_run : M Z (Z * handle Z) :=
  do a <- prep [0; 1; 2]%Z; set_intersection (Handle None) [a].

(** {0,1,2} minus {2} into an output handle that already holds {5}. *)
Definition diff_nonempty_run : M Z (Z * handle Z) :=
  do a <- prep [0; 1; 2]%Z; do b <- prep [2]%Z; do c <- prep [5]%Z;
  set_difference (Handle c) a b.

(** * Lemmas about the list model of [match]-deduplicated insertion *)

Section AddBy.
Context {A : Type} (f : A -> A -> Z).

Lemma mem_by_app xs ys d : mem_by f (xs ++ ys) d = mem_by f xs d || mem_by f ys d.
Proof. unfold mem_by. apply existsb_app. Qed.

Lemma mem_by_true xs d : mem_by f xs d = true <-> exists x, In x xs /\ f x d = 1%Z.
Proof.
  unfold mem_by. rewrite existsb_exists.
  split.
  - intros [x [Hx E]]. exists x. split; [exact Hx | apply Z.eqb_eq; exact E].
  - intros [x [Hx E]]. exists x. split; [exact Hx | apply Z.eqb_eq; exact E].
Qed.

Lemma fold_add_prefix zs ys : exists k, fold_left (add_by f) zs ys = ys ++ k.
Proof.
  revert ys. induction zs as [|z zs IH]; intros ys; simpl.
  - exists []. rewrite app_nil_r. reflexivity.
  - unfold add_by at 2. destruct (mem_by f ys z).
    + apply IH.
    + destruct (IH (ys ++ [z])) as [k Hk]. exists (z :: k). rewrite Hk, <- app_assoc. reflexivity.
Qed.

Lemma mem_by_fold zs ys d :
  mem_by f ys d = true -> mem_by f (fold_left (add_by f) zs ys) d = true.
Proof.
  intros H. destruct (fold_add_prefix zs ys) as [k ->]. rewrite mem_by_app, H. reflexivity.
Qed.

Lemma fold_add_origin zs ys y :
  In y (fold_left (add_by f) zs ys) -> In y ys \/ In y zs.
Proof.
  revert ys. induction zs as [|z zs IH]; intros ys H; simpl in *.
  - auto.
  - destruct (IH _ H) as [H1|H1]; [|auto].
    unfold add_by in H1. destruct (mem_by f ys z); [auto|].
    apply in_app_iff in H1 as [H1|[<-|[]]]; auto.
Qed.

Lemma fold_add_covers zs ys x :
  (forall a, f a a = 1%Z) -> In x zs -> mem_by f (fold_left (add_by f) zs ys) x = true.
Proof.
  intros Hrefl. revert ys. induction zs as [|z zs IH]; intros ys Hx; simpl in *; [contradiction|].
  destruct Hx as [Hz|Hx]; [subst z|apply IH, Hx].
  apply mem_by_fold. unfold add_by. destruct (mem_by f ys x) eqn:E; [exact E|].
  rewrite mem_by_app. apply orb_true_iff. right. apply mem_by_true.
  exists x. split; [left; reflexivity | apply Hrefl].
Qed.

Lemma nodup_by_snoc acc x :
  nodup_by f acc -> mem_by f acc x = false -> nodup_by f (acc ++ [x]).
Proof.
  induction acc as [|y acc IH]; intros Hnd Hm; simpl in *.
  - split; [constructor | exact I].
  - destruct Hnd as [Hy Hnd]. apply orb_false_iff in Hm as [Hyx Hm].
    split; [|apply IH; auto].
    apply Forall_app. split; [exact Hy|]. constructor; [|constructor].
    apply Z.eqb_neq. exact Hyx.
Qed.

Lemma fold_add_nodup zs ys : nodup_by f ys -> nodup_by f (fold_left (add_by f) zs ys).
Proof.
  revert ys. induction zs as [|z zs IH]; intros ys H; simpl; [exact H|].
  apply IH. unfold add_by. destruct (mem_by f ys z) eqn:E; [exact H|].
  apply nodup_by_snoc; auto.
Qed.

Lemma nodup_by_mid l1 a l2 : nodup_by f (l1 ++ a :: l2) -> mem_by f l1 a = false.
Proof.
  induction l1 as [|y l1 IH]; intros H; simpl in *; [reflexivity|].
  destruct H as [Hy H]. apply orb_false_iff. split; [|apply IH, H].
  apply Forall_app in Hy as [_ Hy]. inversion Hy; subst. apply Z.eqb_neq. assumption.
Qed.

Lemma fold_add_nodup_id zs acc :
  nodup_by f (acc ++ zs) -> fold_left (add_by f) zs acc = acc ++ zs.
Proof.
  revert acc. induction zs as [|z zs IH]; intros acc H; simpl.
  - rewrite app_nil_r. reflexivity.
  - unfold add_by at 2. rewrite (nodup_by_mid acc z zs H).
    rewrite IH; [rewrite <- app_assoc; reflexivity|]. rewrite <- app_assoc. exact H.
Qed.

Lemma nodup_by_filter (P : A -> bool) xs : nodup_by f xs -> nodup_by f (List.filter P xs).
Proof.
  induction xs as [|x xs IH]; intros H; simpl in *; [exact I|].
  destruct H as [Hx H]. destruct (P x); [|apply IH, H].
  split; [|apply IH, H].
  rewrite Forall_forall in Hx |- *. intros y Hy. apply Hx.
  apply list_elem_of_In. apply list_elem_of_In in Hy. apply filter_In in Hy. apply Hy.
Qed.

End AddBy.

Lemma int_match_refl a : int_match a a = 1%Z.
Proof. unfold int_match. rewrite Z.eqb_refl. reflexivity. Qed.

(** * Lemmas about the container primitives *)

Section ContainerLemmas.
Context {A : Type}.
Implicit Types (st : state A) (s : set A) (ls : list loc) (xs : list A).

Lemma bind_ok {X Y} (m : M A X) (k : X -> M A Y) st x st' :
  m st = Some (x, st') -> bind m k st = k x st'.
Proof. intros H. unfold bind. rewrite H. reflexivity. Qed.

Lemma chain_length h p ls xs : chain h p ls xs -> length ls = length xs.
Proof. induction 1; simpl; auto. Qed.

Lemma chain_frame h h' p ls xs :
  chain h p ls xs -> (forall l, l ∈ ls -> h' !! l = h !! l) -> chain h' p ls xs.
Proof.
  induction 1 as [|l m ls xs Hl Hc IH]; intros Hfr; econstructor.
  - rewrite Hfr; [exact Hl | apply elem_of_cons; auto].
  - apply IH. intros l' Hl'. apply Hfr. apply elem_of_cons; auto.
Qed.

Lemma chain_nil_inv h p xs : chain h p [] xs -> p = None /\ xs = [].
Proof. inversion 1; auto. Qed.

Lemma chain_None_inv h ls xs : chain h None ls xs -> ls = [] /\ xs = [].
Proof. inversion 1; auto. Qed.

Lemma chain_in h p ls xs l : chain h p ls xs -> l ∈ ls -> exists m, h !! l = Some m.
Proof.
  induction 1 as [|l' m ls xs Hl Hc IH]; intros Hin.
  - apply elem_of_nil in Hin; contradiction.
  - apply elem_of_cons in Hin as [->|Hin]; eauto.
Qed.

Lemma length_le_bound ls (n : nat) :
  NoDup ls -> Forall (fun l => l < n)%nat ls -> (length ls <= n)%nat.
Proof.
  intros Hnd Hb. apply NoDup_ListNoDup in Hnd.
  rewrite <- (length_seq n 0).
  apply (List.NoDup_incl_length Hnd).
  intros l Hl. apply in_seq. rewrite Forall_forall in Hb.
  specialize (Hb l (proj2 (list_elem_of_In _ _) Hl)). lia.
Qed.

Lemma ismember_scan_spec st s f d c ls xs n :
  match_ s = Some f -> chain (heap st) (Some c) ls xs -> (length ls < n)%nat ->
  ismember_scan n s d c st = Some (if mem_by f xs d then 1%Z else 0%Z, st).
Proof.
  revert c xs n. induction ls as [|l ls IH]; intros c xs n Hf Hc Hn;
    inversion Hc as [|l' m ls' xs' Hl Hrest]; subst.
  destruct n as [|n]; [simpl in Hn; lia|].
  cbn [ismember_scan]. unfold bind at 1, load. rewrite Hl.
  unfold call_match. rewrite Hf. cbn [bind ret].
  unfold mem_by. cbn [existsb].
  destruct (Z.eqb_spec (f (data m) d) 1%Z) as [E|E].
  - rewrite E. reflexivity.
  - simpl. destruct (next m) as [n'|] eqn:Hnx.
    + apply (IH n' xs' n Hf Hrest). simpl in Hn. lia.
    + apply chain_None_inv in Hrest as [-> ->]. reflexivity.
Qed.

Lemma set_ismember_spec st s ls xs f d :
  set_ok st s ls xs -> match_ s = Some f ->
  set_ismember (Some s) (Some d) st = Some (if mem_by f xs d then 1%Z else 0%Z, st).
Proof.
  intros [Hc Hsz Htl Hnd Hb] Hf. unfold set_ismember, set_isempty.
  destruct ls as [|l ls].
  - apply chain_nil_inv in Hc as [_ ->]. rewrite Hsz. reflexivity.
  - rewrite Hsz.
    destruct (Z.eqb_spec (Z.of_nat (length (l :: ls))) 0) as [E|_]; [simpl in E; lia|].
    pose proof Hc as Hc'. rewrite (ltac:(inversion Hc; reflexivity) : head s = Some l) in Hc' |- *.
    unfold with_fuel.
    apply (ismember_scan_spec _ _ f d l (l :: ls) _ _ Hf Hc').
    pose proof (length_le_bound _ _ Hnd Hb). lia.
Qed.

Lemma chain_snoc h h' p ls xs t mt new d :
  chain h p ls xs -> NoDup ls -> last ls = Some t -> h !! t = Some mt ->
  h' !! t = Some (Member (data mt) (Some new)) -> h' !! new = Some (Member d None) ->
  (forall l, l ∈ ls -> l <> t -> h' !! l = h !! l) ->
  chain h' p (ls ++ [new]) (xs ++ [d]).
Proof.
  induction 1 as [|l m ls xs Hl Hc IH]; intros Hnd Hlast Ht Ht' Hnew Hfr;
    [discriminate|].
  apply NoDup_cons in Hnd as [Hnin Hnd].
  destruct ls as [|l2 ls].
  - simpl in Hlast. injection Hlast as <-. rewrite Hl in Ht. injection Ht as <-.
    apply chain_nil_inv in Hc as [Hnx ->].
    change ([l] ++ [new]) with [l; new].
    change (data m) with (data (Member (data m) (Some new))).
    econstructor; [exact Ht'|]. cbn [next app].
    change [d] with [data (Member d None)].
    econstructor; [exact Hnew|]. constructor.
  - assert (Hlt : l <> t).
    { intros Heq. apply Hnin. apply last_Some_elem_of. rewrite Heq.
      rewrite <- (last_cons_cons l). exact Hlast. }
    change ((l :: l2 :: ls) ++ [new]) with (l :: ((l2 :: ls) ++ [new])).
    change (data m :: xs ++ [d]) with (data m :: (xs ++ [d])).
    econstructor.
    + rewrite Hfr; [exact Hl | apply elem_of_cons; auto | exact Hlt].
    + assert (Hlast' : last (l2 :: ls) = Some t)
        by (rewrite <- (last_cons_cons l); exact Hlast).
      apply IH; [exact Hnd | exact Hlast' | exact Ht | exact Ht' | exact Hnew |].
      intros l' Hl' Hne. apply Hfr; [apply elem_of_cons; auto | exact Hne].
Qed.

Lemma malloc_ok st :
  alloc_ok st ->
  exists rest, malloc st = Some (Some (fresh st),
                 MkState (heap st) (S (fresh st)) (freed st) (released st) rest)
            /\ Forall (fun b => b = true) rest.
Proof.
  unfold alloc_ok, malloc. destruct (mallocs st) as [|b r]; intros H.
  - exists []. split; [reflexivity | constructor].
  - inversion H as [|b' r' Hb Hr]; subst. exists r. split; [reflexivity | exact Hr].
Qed.

Lemma set_create_ok st mt ds :
  alloc_ok st ->
  exists rest, set_create mt ds st =
      Some (Some (MkSet 0%Z mt ds None None),
            MkState (heap st) (S (fresh st)) (freed st) (released st) rest)
    /\ Forall (fun b => b = true) rest.
Proof.
  intros Ha. destruct (malloc_ok st Ha) as [rest [Hma Hrest]].
  exists rest. split; [|exact Hrest]. unfold set_create. erewrite bind_ok; [|exact Hma].
  reflexivity.
Qed.

Lemma set_insert_member st s ls xs f d :
  set_ok st s ls xs -> match_ s = Some f -> mem_by f xs d = true ->
  set_insert (Some s) (Some d) st = Some ((1%Z, Some s), st).
Proof.
  intros Hok Hf Hm. unfold set_insert.
  erewrite bind_ok; [|apply (set_ismember_spec _ _ _ _ _ d Hok Hf)].
  rewrite Hm. reflexivity.
Qed.

Lemma set_insert_new st s ls xs f d :
  set_ok st s ls xs -> match_ s = Some f -> mem_by f xs d = false -> alloc_ok st ->
  exists s' st',
    set_insert (Some s) (Some d) st = Some ((0%Z, Some s'), st') /\
    set_ok st' s' (ls ++ [fresh st]) (xs ++ [d]) /\
    match_ s' = match_ s /\ destroy s' = destroy s /\
    size s' = (size s + 1)%Z /\ tail s' = Some (fresh st) /\
    fresh st' = S (fresh st) /\ alloc_ok st' /\
    freed st' = freed st /\ released st' = released st /\
    (forall l, l ∉ ls -> l <> fresh st -> heap st' !! l = heap st !! l).
Proof.
  intros Hok Hf Hm Halloc. pose proof Hok as [Hc Hsz Htl Hnd Hb].
  unfold set_insert.
  erewrite bind_ok; [|apply (set_ismember_spec _ _ _ _ _ d Hok Hf)].
  rewrite Hm. cbn [negb Z.eqb].
  destruct (malloc_ok st Halloc) as [rest [Hma Hrest]].
  erewrite bind_ok; [|exact Hma].
  set (new := fresh st).
  unfold set_isempty. rewrite Hsz.
  destruct ls as [|l ls'].
  - apply chain_nil_inv in Hc as [Hhd ->].
    eexists _, _. split.
    { simpl. cbv [bind ret store store_next load]. cbn. rewrite lookup_insert_eq. reflexivity. }
    cbn. rewrite !insert_insert_eq.
    split; [split|].
    + cbn. change [d] with [data (Member d None)].
      econstructor; [apply lookup_insert_eq|]. constructor.
    + cbn. lia.
    + reflexivity.
    + apply NoDup_singleton.
    + cbn. constructor; [lia | constructor].
    + repeat split; try reflexivity; try exact Hrest.
      intros l _ Hne. cbn. rewrite lookup_insert_ne; auto.
  - set (ls := l :: ls') in *.
    destruct (last ls) as [t|] eqn:Hlast;
      [|apply last_None in Hlast; discriminate].
    assert (Htin : t ∈ ls) by (apply last_Some_elem_of; exact Hlast).
    destruct (chain_in _ _ _ _ _ Hc Htin) as [mt Hmt].
    assert (Htnew : t <> new).
    { intros Heq. rewrite Forall_forall in Hb. specialize (Hb t Htin). unfold new in Heq. lia. }
    assert (E : Z.eqb (Z.of_nat (length ls)) 0 = false) by (apply Z.eqb_neq; simpl; lia).
    rewrite E. rewrite Htl.
    eexists _, _. split.
    { simpl. cbv [bind ret store store_next load]. cbn.
      rewrite lookup_insert_ne by congruence. rewrite Hmt. cbn.
      rewrite lookup_insert_ne by congruence. rewrite lookup_insert_eq. cbn.
      reflexivity. }
    cbn. split; [split|].
    + cbn. change (l :: ls' ++ [new]) with (ls ++ [new]).
      eapply chain_snoc; [exact Hc | exact Hnd | exact Hlast | exact Hmt | | |].
      * rewrite lookup_insert_ne by congruence. apply lookup_insert_eq.
      * apply lookup_insert_eq.
      * intros l0 Hl0 Hne.
        assert (l0 <> new).
        { intros ->. rewrite Forall_forall in Hb. specialize (Hb _ Hl0). unfold new in Hb. lia. }
        rewrite !lookup_insert_ne by congruence. reflexivity.
    + cbn. rewrite length_app. simpl. lia.
    + cbn. symmetry. change (l :: ls' ++ [new]) with (ls ++ [new]). apply last_snoc.
    + change (l :: ls' ++ [new]) with (ls ++ [new]). apply NoDup_app.
      split; [exact Hnd|]. split; [|apply NoDup_singleton].
      intros x Hx Hx'. apply list_elem_of_singleton in Hx'. subst x.
      rewrite Forall_forall in Hb. specialize (Hb _ Hx). unfold new in Hb. lia.
    + cbn. change (l :: ls' ++ [new]) with (ls ++ [new]). apply Forall_app. split; [|constructor; [lia|constructor]].
      eapply Forall_impl; [exact Hb|]. intros x Hx. cbn in Hx. unfold new. lia.
    + repeat split; try reflexivity; try exact Hrest.
      intros l0 Hl0 Hne. cbn.
      assert (l0 <> t) by (intros ->; contradiction).
      rewrite !lookup_insert_ne by congruence. reflexivity.
Qed.

Lemma load_ok st l m : heap st !! l = Some m -> load l st = Some (m, st).
Proof. intros H. unfold load. rewrite H. reflexivity. Qed.

Lemma chain_frame_below h h' p ls xs (F : nat) :
  chain h p ls xs -> Forall (fun l => l < F)%nat ls ->
  (forall l, (l < F)%nat -> h' !! l = h !! l) -> chain h' p ls xs.
Proof.
  intros Hc Hb Hfr. apply (chain_frame h); [exact Hc|].
  intros l Hl. apply Hfr. rewrite Forall_forall in Hb. apply Hb, Hl.
Qed.

Lemma union_members_spec n st out ols ys f p cl zs (F : nat) :
  chain (heap st) p cl zs -> NoDup cl -> Forall (fun l => l < F)%nat cl ->
  (length cl < n)%nat ->
  set_ok st out ols ys -> Forall (fun l => F <= l)%nat ols -> (F <= fresh st)%nat ->
  match_ out = Some f -> alloc_ok st ->
  exists out' ols' st',
    union_members n out p st = Some ((0%Z, out'), st') /\
    set_ok st' out' ols' (fold_left (add_by f) zs ys) /\
    Forall (fun l => F <= l)%nat ols' /\ (F <= fresh st')%nat /\
    match_ out' = match_ out /\ destroy out' = destroy out /\ alloc_ok st' /\
    (forall l, (l < F)%nat -> heap st' !! l = heap st !! l).
Proof.
  revert n st out ols ys p zs.
  induction cl as [|c cl IH]; intros n st out ols ys p zs Hc Hnd Hb Hn Hok Hge HF Hf Ha.
  - apply chain_nil_inv in Hc as [-> ->].
    destruct n; exists out, ols, st;
      (split; [reflexivity| split; [exact Hok| repeat split; auto]]).
  - inversion Hc as [|c' m cl' zs' Hm Hrest]; subst.
    apply NoDup_cons in Hnd as [Hnin Hnd]. inversion Hb as [|c' cl'' Hcb Hb']; subst.
    destruct n as [|n]; [simpl in Hn; lia|].
    cbn [union_members]. erewrite bind_ok; [|apply load_ok; exact Hm].
    destruct (mem_by f ys (data m)) eqn:Hmem.
    + erewrite bind_ok; [|apply (set_insert_member _ _ _ _ _ _ Hok Hf Hmem)].
      cbn. erewrite bind_ok; [|apply load_ok; exact Hm].
      cbn [fold_left]. unfold add_by at 2. rewrite Hmem.
      apply (IH n st out ols ys (next m) zs'); auto. simpl in Hn. lia.
    + destruct (set_insert_new _ _ _ _ _ _ Hok Hf Hmem Ha)
        as (s1 & st1 & Hins & Hok1 & Hf1 & Hd1 & _ & _ & Hfr1 & Ha1 & _ & _ & Hh1).
      assert (Hbelow : forall l, (l < F)%nat -> heap st1 !! l = heap st !! l).
      { intros l Hl. apply Hh1; [|lia].
        intros Hin. rewrite Forall_forall in Hge. specialize (Hge _ Hin). lia. }
      erewrite bind_ok; [|exact Hins]. cbn.
      erewrite bind_ok; [|apply load_ok; rewrite Hbelow by exact Hcb; exact Hm].
      cbn [fold_left]. unfold add_by at 2. rewrite Hmem.
      destruct (IH n st1 s1 (ols ++ [fresh st]) (ys ++ [data m]) (next m) zs')
        as (out' & ols' & st' & Hrun & Hok' & Hge' & HF' & Hf' & Hd' & Ha' & Hh');
        auto.
      * apply (chain_frame_below (heap st) _ _ _ _ F); auto.
      * simpl in Hn. lia.
      * apply Forall_app. split; [exact Hge|]. constructor; [lia|constructor].
      * lia.
      * rewrite Hf1. exact Hf.
      * exists out', ols', st'.
        split; [exact Hrun|]. split; [exact Hok'|].
        repeat split; auto; try congruence.
        intros l Hl. rewrite Hh' by exact Hl. apply Hbelow, Hl.
Qed.

Lemma input_ok_frame st st' F s xs :
  input_ok st F s xs -> (forall l, (l < F)%nat -> heap st' !! l = heap st !! l) ->
  input_ok st' F s xs.
Proof.
  intros (ls & Hc & Hnd & Hb) Hfr. exists ls. split; [|split; auto].
  apply (chain_frame_below (heap st) _ _ _ _ F); auto.
Qed.

Lemma sets_at_drop (sets : list (option (set A))) i (x : option (set A)) rest st :
  drop i sets = x :: rest -> sets_at sets i st = Some (x, st).
Proof.
  intros H. unfold sets_at.
  assert (E : sets !! i = Some x).
  { rewrite <- (Nat.add_0_r i), <- lookup_drop, H. reflexivity. }
  rewrite E. reflexivity.
Qed.

Lemma drop_next {X} (l : list X) i x rest : drop i l = x :: rest -> drop (S i) l = rest.
Proof.
  intros H. rewrite <- Nat.add_1_r, <- drop_drop, H. reflexivity.
Qed.

Lemma union_sets_spec fuel sets i s rest xs xss st out ols ys f F :
  drop i sets = map Some rest ++ [None] -> (length rest < fuel)%nat ->
  input_ok st F s xs -> Forall2 (input_ok st F) rest xss ->
  set_ok st out ols ys -> Forall (fun l => F <= l)%nat ols -> (F <= fresh st)%nat ->
  match_ out = Some f -> alloc_ok st ->
  exists out' ols' st',
    union_sets fuel sets i (Some s) out st = Some ((0%Z, out'), st') /\
    set_ok st' out' ols' (fold_left (add_by f) (xs ++ concat xss) ys) /\
    match_ out' = match_ out /\ destroy out' = destroy out /\ alloc_ok st' /\
    (forall l, (l < F)%nat -> heap st' !! l = heap st !! l).
Proof.
  revert fuel i s xs xss st out ols ys.
  induction rest as [|r rest IH];
    intros fuel i s xs xss st out ols ys Hdrop Hfuel Hin Hins Hok Hge HF Hf Ha;
    (destruct fuel as [|fuel]; [simpl in Hfuel; lia|]);
    destruct Hin as (ls & Hc & Hnd & Hb);
    (destruct (union_members_spec (S (fresh st)) st out ols ys f (head s) ls xs F)
      as (out1 & ols1 & st1 & Hrun & Hok1 & Hge1 & HF1 & Hf1 & Hd1 & Ha1 & Hh1); auto;
     [pose proof (length_le_bound ls F Hnd Hb); lia|]);
    cbn [union_sets]; erewrite bind_ok; try (unfold with_fuel; exact Hrun); cbn.
  - inversion Hins; subst.
    erewrite bind_ok; [|apply (sets_at_drop _ _ _ [] _ Hdrop)].
    exists out1, ols1, st1. rewrite app_nil_r.
    split; [destruct fuel; reflexivity|]. split; [exact Hok1|].
    repeat split; try congruence; exact Hh1.
  - inversion Hins as [|r' xr rest' xss' Hr Hrest]; subst.
    erewrite bind_ok; [|apply (sets_at_drop _ _ _ _ _ Hdrop)].
    destruct (IH fuel (S i) r xr xss' st1 out1 ols1 (fold_left (add_by f) xs ys))
      as (out' & ols' & st' & Hrun' & Hok' & Hf' & Hd' & Ha' & Hh'); auto.
    + apply (drop_next sets i (Some r)). exact Hdrop.
    + simpl in Hfuel. lia.
    + apply (input_ok_frame st); auto.
    + eapply Forall2_impl; [exact Hrest|]. intros s' xs' H'.
      apply (input_ok_frame st); auto.
    + congruence.
    + exists out', ols', st'. split; [exact Hrun'|].
      rewrite concat_cons, fold_left_app. split; [exact Hok'|].
      repeat split; try congruence.
      intros l Hl. rewrite Hh' by exact Hl. apply Hh1, Hl.
Qed.

Lemma set_union_spec st s0 ss xs0 xss f :
  match_ s0 = Some f -> input_ok st (fresh st) s0 xs0 ->
  Forall2 (input_ok st (fresh st)) ss xss -> alloc_ok st ->
  exists u ls st',
    set_union (Handle None) (Some s0 :: map Some ss) st = Some ((0%Z, Handle (Some u)), st') /\
    set_ok st' u ls (fold_left (add_by f) (xs0 ++ concat (xs0 :: xss)) []) /\
    match_ u = Some f /\ destroy u = destroy s0 /\
    (forall l, (l < fresh st)%nat -> heap st' !! l = heap st !! l).
Proof.
  intros Hf Hin Hins Ha.
  unfold set_union, set_union_func.
  erewrite bind_ok; [|apply (sets_at_drop _ 0 _ (map Some ss ++ [None])); reflexivity].
  cbn beta iota.
  destruct (set_create_ok st (match_ s0) (destroy s0) Ha) as [rest [Hma Hrest]].
  erewrite bind_ok; [|exact Hma]. cbn beta iota.
  set (st1 := MkState (heap st) (S (fresh st)) (freed st) (released st) rest).
  set (out := MkSet 0%Z (match_ s0) (destroy s0) None None).
  destruct (union_sets_spec (S (S (length ((Some s0 :: map Some ss) ++ [None]))))
              ((Some s0 :: map Some ss) ++ [None]) 0 s0 (s0 :: ss) xs0 (xs0 :: xss)
              st1 out [] [] f (fresh st))
    as (u & ls & st' & Hrun & Hok & Hfu & Hdu & _ & Hh).
  - reflexivity.
  - rewrite length_app. simpl. rewrite length_map. lia.
  - exact Hin.
  - constructor; [exact Hin | exact Hins].
  - split; [constructor | reflexivity | reflexivity | constructor | constructor].
  - constructor.
  - simpl. lia.
  - exact Hf.
  - exact Hrest.
  - exists u, ls, st'. erewrite bind_ok; [|exact Hrun]. cbn.
    split; [reflexivity|]. split; [exact Hok|].
    split; [rewrite Hfu; exact Hf|]. split; [rewrite Hdu; reflexivity|]. exact Hh.
Qed.

Lemma chain_check_sound fuel h p ls xs :
  chain_check fuel h p = Some (ls, xs) -> chain h p ls xs.
Proof.
  revert p ls xs. induction fuel as [|fuel IH]; intros p ls xs H;
    destruct p as [l|]; cbn in H; try discriminate;
    try (injection H as <- <-; constructor).
  destruct (h !! l) as [m|] eqn:Hm; [|discriminate].
  destruct (chain_check fuel h (next m)) as [[ls' xs']|] eqn:Hc; [|discriminate].
  injection H as <- <-. econstructor; [exact Hm | apply IH, Hc].
Qed.

Lemma set_ok_check_sound st s ls xs : set_ok_check st s = Some (ls, xs) -> set_ok st s ls xs.
Proof.
  unfold set_ok_check.
  destruct (chain_check (S (fresh st)) (heap st) (head s)) as [[ls' xs']|] eqn:Hc;
    [|discriminate].
  case_bool_decide as Hd; [|discriminate]. intros E. injection E as <- <-.
  destruct Hd as (Hsz & Htl & Hnd & Hb).
  split; auto. apply (chain_check_sound _ _ _ _ _ Hc).
Qed.

Lemma set_ok_check_input st s ls xs :
  set_ok_check st s = Some (ls, xs) -> input_ok st (fresh st) s xs.
Proof.
  intros H. apply set_ok_check_sound in H as [Hc _ _ Hnd Hb]. exists ls. auto.
Qed.

Lemma set_ok_check_member st s ls xs f :
  set_ok_check st s = Some (ls, xs) -> match_ s = Some f -> member_ok st (fresh st) f s xs.
Proof.
  intros H Hf. apply set_ok_check_sound in H. exists ls. split; [exact H|].
  split; [exact Hf | apply (ok_bound _ _ _ _ H)].
Qed.

Lemma member_ok_frame st st' F f s xs :
  member_ok st F f s xs -> (forall l, (l < F)%nat -> heap st' !! l = heap st !! l) ->
  (F <= fresh st')%nat -> member_ok st' F f s xs.
Proof.
  intros (ls & [Hc Hsz Htl Hnd Hb] & Hf & HF) Hfr Hle. exists ls.
  split; [|split; auto]. split; auto.
  - apply (chain_frame_below (heap st) _ _ _ _ F); auto.
  - eapply Forall_impl; [exact HF|]. intros l Hl. cbn in Hl. lia.
Qed.

Lemma inter_check_spec fuel sets j rest xss st F f d nm :
  drop j sets = map Some rest ++ [None] -> (length rest < fuel)%nat ->
  Forall2 (member_ok st F f) rest xss ->
  inter_check fuel sets j d nm st =
    Some (nm || negb (forallb (fun xs => mem_by f xs d) xss), st).
Proof.
  revert fuel j xss nm.
  induction rest as [|r rest IH]; intros fuel j xss nm Hdrop Hfuel Hrest;
    (destruct fuel as [|fuel]; [simpl in Hfuel; lia|]);
    cbn [inter_check]; erewrite bind_ok; try (apply (sets_at_drop _ _ _ _ _ Hdrop)).
  - inversion Hrest; subst. cbn. rewrite orb_false_r. reflexivity.
  - inversion Hrest as [|r' xs rest' xss' Hr Hrs]; subst. cbn beta iota.
    destruct nm; [reflexivity|].
    destruct Hr as (ls & Hok & Hf & _).
    erewrite bind_ok; [|apply (set_ismember_spec _ _ _ _ _ d Hok Hf)].
    rewrite (IH fuel (S j) xss'); [| apply (drop_next sets j (Some r)); exact Hdrop
                                   | simpl in Hfuel; lia | exact Hrs].
    cbn [forallb]. destruct (mem_by f xs d); reflexivity.
Qed.

Lemma inter_members_spec n sets ss xss st out ols ys f p cl zs (F : nat) :
  drop 1 sets = map Some ss ++ [None] -> Forall2 (member_ok st F f) ss xss ->
  chain (heap st) p cl zs -> NoDup cl -> Forall (fun l => l < F)%nat cl ->
  (length cl < n)%nat ->
  set_ok st out ols ys -> Forall (fun l => F <= l)%nat ols -> (F <= fresh st)%nat ->
  match_ out = Some f -> alloc_ok st ->
  exists out' ols' st',
    inter_members n sets out p st = Some (out', st') /\
    set_ok st' out' ols'
      (fold_left (add_by f) (List.filter (fun x => forallb (fun xs => mem_by f xs x) xss) zs) ys) /\
    Forall (fun l => F <= l)%nat ols' /\ (F <= fresh st')%nat /\
    match_ out' = match_ out /\ destroy out' = destroy out /\ alloc_ok st' /\
    (forall l, (l < F)%nat -> heap st' !! l = heap st !! l).
Proof.
  intros Hdrop. assert (Hlen : (length ss < S (length sets))%nat).
  { pose proof (f_equal length Hdrop) as E. rewrite length_drop, length_app, length_map in E.
    simpl in E. lia. }
  revert n st out ols ys p zs.
  induction cl as [|c cl IH]; intros n st out ols ys p zs Hss Hc Hnd Hb Hn Hok Hge HF Hf Ha.
  - apply chain_nil_inv in Hc as [-> ->].
    destruct n; exists out, ols, st;
      (split; [reflexivity| split; [exact Hok| repeat split; auto]]).
  - inversion Hc as [|c' m cl' zs' Hm Hrest]; subst.
    apply NoDup_cons in Hnd as [Hnin Hnd]. inversion Hb as [|c' cl'' Hcb Hb']; subst.
    destruct n as [|n]; [simpl in Hn; lia|].
    cbn [inter_members]. erewrite bind_ok; [|apply load_ok; exact Hm].
    erewrite bind_ok; [|apply (inter_check_spec _ _ _ _ _ _ _ _ _ _ Hdrop Hlen Hss)].
    cbn [orb List.filter].
    destruct (forallb (fun xs => mem_by f xs (data m)) xss) eqn:Hall; cbn [negb].
    + destruct (mem_by f ys (data m)) eqn:Hmem.
      * erewrite bind_ok.
        2:{ unfold bind. rewrite (set_insert_member _ _ _ _ _ _ Hok Hf Hmem). reflexivity. }
        erewrite bind_ok; [|apply load_ok; exact Hm].
        cbn [fold_left]. unfold add_by at 2. rewrite Hmem.
        apply (IH n st out ols ys (next m) zs'); auto. simpl in Hn. lia.
      * destruct (set_insert_new _ _ _ _ _ _ Hok Hf Hmem Ha)
          as (s1 & st1 & Hins & Hok1 & Hf1 & Hd1 & _ & _ & Hfr1 & Ha1 & _ & _ & Hh1).
        assert (Hbelow : forall l, (l < F)%nat -> heap st1 !! l = heap st !! l).
        { intros l Hl. apply Hh1; [|lia].
          intros Hin. rewrite Forall_forall in Hge. specialize (Hge _ Hin). lia. }
        erewrite bind_ok.
        2:{ unfold bind. rewrite Hins. reflexivity. }
        erewrite bind_ok; [|apply load_ok; rewrite Hbelow by exact Hcb; exact Hm].
        cbn [fold_left]. unfold add_by at 2. rewrite Hmem.
        destruct (IH n st1 s1 (ols ++ [fresh st]) (ys ++ [data m]) (next m) zs')
          as (out' & ols' & st' & Hrun & Hok' & Hge' & HF' & Hf' & Hd' & Ha' & Hh');
          auto.
        -- eapply Forall2_impl; [exact Hss|]. intros s' xs' H'.
           apply (member_ok_frame st); auto. lia.
        -- apply (chain_frame_below (heap st) _ _ _ _ F); auto.
        -- simpl in Hn. lia.
        -- apply Forall_app. split; [exact Hge|]. constructor; [lia|constructor].
        -- lia.
        -- rewrite Hf1. exact Hf.
        -- exists out', ols', st'.
           split; [exact Hrun|]. split; [exact Hok'|].
           repeat split; auto; try congruence.
           intros l Hl. rewrite Hh' by exact Hl. apply Hbelow, Hl.
    + cbn. erewrite bind_ok; [|apply load_ok; exact Hm].
      apply (IH n st out ols ys (next m) zs'); auto. simpl in Hn. lia.
Qed.

Lemma set_intersection_spec st s0 ss xs0 xss f :
  match_ s0 = Some f -> input_ok st (fresh st) s0 xs0 ->
  Forall2 (member_ok st (fresh st) f) ss xss -> alloc_ok st ->
  exists u ls st',
    set_intersection (Handle None) (Some s0 :: map Some ss) st =
      Some ((0%Z, Handle (Some u)), st') /\
    set_ok st' u ls
      (fold_left (add_by f) (List.filter (fun x => forallb (fun xs => mem_by f xs x) xss) xs0) []) /\
    match_ u = Some f /\ destroy u = destroy s0 /\
    (forall l, (l < fresh st)%nat -> heap st' !! l = heap st !! l).
Proof.
  intros Hf (cl & Hc & Hnd & Hb) Hss Ha.
  unfold set_intersection, set_intersection_func.
  erewrite bind_ok; [|apply (sets_at_drop _ 0 _ (map Some ss ++ [None])); reflexivity].
  cbn beta iota.
  destruct (set_create_ok st (match_ s0) (destroy s0) Ha) as [rest [Hma Hrest]].
  erewrite bind_ok; [|exact Hma]. cbn beta iota.
  set (st1 := MkState (heap st) (S (fresh st)) (freed st) (released st) rest).
  set (out := MkSet 0%Z (match_ s0) (destroy s0) None None).
  destruct (inter_members_spec (S (fresh st1)) ((Some s0 :: map Some ss) ++ [None]) ss xss
              st1 out [] [] f (head s0) cl xs0 (fresh st))
    as (u & ls & st' & Hrun & Hok & _ & _ & Hfu & Hdu & _ & Hh).
  - reflexivity.
  - eapply Forall2_impl; [exact Hss|]. intros s' xs' H'.
    apply (member_ok_frame st); auto. simpl. lia.
  - exact Hc.
  - exact Hnd.
  - exact Hb.
  - pose proof (length_le_bound cl _ Hnd Hb). simpl. lia.
  - split; [constructor | reflexivity | reflexivity | constructor | constructor].
  - constructor.
  - simpl. lia.
  - exact Hf.
  - exact Hrest.
  - exists u, ls, st'. erewrite bind_ok; [|unfold with_fuel; exact Hrun]. cbn.
    split; [reflexivity|]. split; [exact Hok|].
    split; [rewrite Hfu; exact Hf|]. split; [rewrite Hdu; reflexivity|]. exact Hh.
Qed.

Lemma subset_scan_spec n st s2 ls2 xs2 f p cl zs :
  chain (heap st) p cl zs -> (length cl < n)%nat ->
  set_ok st s2 ls2 xs2 -> match_ s2 = Some f ->
  subset_scan n s2 p st = Some (if forallb (mem_by f xs2) zs then 1%Z else 0%Z, st).
Proof.
  revert n p zs. induction cl as [|c cl IH]; intros n p zs Hc Hn Hok Hf.
  - apply chain_nil_inv in Hc as [-> ->]. destruct n; reflexivity.
  - inversion Hc as [|c' m cl' zs' Hm Hrest]; subst.
    destruct n as [|n]; [simpl in Hn; lia|].
    cbn [subset_scan]. erewrite bind_ok; [|apply load_ok; exact Hm].
    erewrite bind_ok; [|apply (set_ismember_spec _ _ _ _ _ (data m) Hok Hf)].
    cbn [forallb]. destruct (mem_by f xs2 (data m)); cbn.
    + erewrite bind_ok; [|apply load_ok; exact Hm].
      apply IH; auto. simpl in Hn. lia.
    + reflexivity.
Qed.

Lemma set_issubset_spec st s1 s2 ls1 xs1 ls2 xs2 f :
  set_ok st s1 ls1 xs1 -> set_ok st s2 ls2 xs2 -> match_ s2 = Some f ->
  set_issubset (Some s1) (Some s2) st =
    Some (if forallb (mem_by f xs2) xs1 then 1%Z else 0%Z, st).
Proof.
  intros Hok1 Hok2 Hf. pose proof Hok1 as [Hc Hsz Htl Hnd Hb].
  unfold set_issubset, set_isempty.
  destruct (Z.eqb_spec (size s1) 0) as [E|E]; cbn [andb].
  - assert (ls1 = []) as ->.
    { destruct ls1; [reflexivity|]. rewrite Hsz in E. simpl in E. lia. }
    apply chain_nil_inv in Hc as [Hh ->]. cbn [forallb].
    destruct (negb (size s2 =? 0)%Z); [reflexivity|].
    unfold with_fuel. rewrite Hh. reflexivity.
  - unfold with_fuel. apply (subset_scan_spec _ _ _ ls2 _ _ _ ls1); auto.
    pose proof (length_le_bound _ _ Hnd Hb). lia.
Qed.

End ContainerLemmas.

(** * Lemmas about removal *)

Section RemoveLemmas.
Context {A : Type}.
Implicit Types (st : state A) (s : set A) (ls : list loc) (xs : list A).

Lemma chain_cons_inv h p l ls x xs :
  chain h p (l :: ls) (x :: xs) ->
  p = Some l /\ exists m, h !! l = Some m /\ data m = x /\ chain h (next m) ls xs.
Proof. inversion 1; subst. split; [reflexivity|]. eexists; eauto. Qed.

Lemma set_remove_first st s l ls x xs d f :
  set_ok st s (l :: ls) (x :: xs) ->
  (d = None \/ (exists e, d = Some e /\ match_ s = Some f /\ f x e = 1%Z)) ->
  exists s',
    set_remove (Some s) d st =
      Some ((0%Z, Some s', Some x),
            MkState (heap st) (fresh st) (l :: freed st) (released st) (mallocs st)) /\
    set_ok (MkState (heap st) (fresh st) (l :: freed st) (released st) (mallocs st)) s' ls xs /\
    match_ s' = match_ s /\ destroy s' = destroy s /\ size s' = (size s - 1)%Z.
Proof.
  intros Hok Hd. pose proof Hok as [Hc Hsz Htl Hnd Hb].
  apply chain_cons_inv in Hc as (Hh & m & Hm & <- & Hc).
  apply NoDup_cons in Hnd as [_ Hnd]. inversion Hb as [|? ? _ Hb']; subst.
  set (s1 := set_with_head s (next m)).
  set (s2 := match next m with None => set_with_tail s1 None | Some _ => s1 end).
  assert (Hs2 : set_ok (MkState (heap st) (fresh st) (l :: freed st) (released st) (mallocs st))
                  (set_with_size s2 (size s2 - 1)) ls xs /\
                match_ (set_with_size s2 (size s2 - 1)) = match_ s /\
                destroy (set_with_size s2 (size s2 - 1)) = destroy s /\
                size (set_with_size s2 (size s2 - 1)) = (size s - 1)%Z).
  { unfold s2, s1. destruct (next m) as [n|] eqn:Hn.
    - split; [split|]; cbn.
      + exact Hc.
      + rewrite Hsz. simpl. lia.
      + rewrite Htl. destruct ls as [|l2 ls]; [apply chain_nil_inv in Hc as [? _]; discriminate|].
        apply last_cons_cons.
      + exact Hnd.
      + exact Hb'.
      + repeat split.
    - apply chain_None_inv in Hc as [-> ->].
      split; [split|]; cbn.
      + constructor.
      + rewrite Hsz. simpl. lia.
      + reflexivity.
      + constructor.
      + constructor.
      + repeat split. }
  exists (set_with_size s2 (size s2 - 1)). split; [|exact Hs2].
  unfold set_remove. destruct Hd as [->|(e & -> & Hf & Hx)].
  - erewrite bind_ok; [|reflexivity]. cbn [negb Z.eqb andb].
    rewrite bool_decide_false by congruence. cbn [andb].
    rewrite Hh. erewrite bind_ok; [|apply load_ok; exact Hm]. reflexivity.
  - erewrite bind_ok; [|apply (set_ismember_spec st s _ _ f e Hok Hf)].
    assert (Hmem : mem_by f (data m :: xs) e = true).
    { unfold mem_by. cbn [existsb]. rewrite Hx. reflexivity. }
    rewrite Hmem. cbn [negb Z.eqb Pos.eqb andb].
    rewrite Hh. erewrite bind_ok; [|apply load_ok; exact Hm].
    unfold call_match. rewrite Hf. cbn [bind ret].
    rewrite Hx. reflexivity.
Qed.

Lemma last_app_cons {X} (a : list X) b c : last (a ++ b :: c) = last (b :: c).
Proof.
  induction a as [|y a IH]; [reflexivity|].
  rewrite <- app_comm_cons. destruct a as [|z a]; simpl in *; [reflexivity|]. exact IH.
Qed.

Lemma chain_pred h p pre c l ls2 ys y x xs2 :
  chain h p (pre ++ c :: l :: ls2) (ys ++ y :: x :: xs2) -> length pre = length ys ->
  exists mc, h !! c = Some mc /\ next mc = Some l /\ data mc = y.
Proof.
  revert p ys. induction pre as [|p0 pre IH]; intros p ys Hc Hlen;
    destruct ys as [|y0 ys]; simpl in Hlen; try discriminate.
  - apply chain_cons_inv in Hc as (_ & mc & Hmc & Hd & Hc).
    apply chain_cons_inv in Hc as (Hn & _). exists mc. auto.
  - apply chain_cons_inv in Hc as (_ & m0 & _ & _ & Hc). apply (IH _ ys Hc). lia.
Qed.

Lemma chain_splice h p pre c l ls2 ys y x xs2 mc ml :
  chain h p (pre ++ c :: l :: ls2) (ys ++ y :: x :: xs2) -> length pre = length ys ->
  NoDup (pre ++ c :: l :: ls2) -> h !! c = Some mc -> h !! l = Some ml ->
  chain (<[c := Member (data mc) (next ml)]> h) p (pre ++ c :: ls2) (ys ++ y :: xs2).
Proof.
  revert p ys. induction pre as [|p0 pre IH]; intros p ys Hc Hlen Hnd Hmc Hml;
    destruct ys as [|y0 ys]; simpl in Hlen; try discriminate; simpl in *.
  - apply chain_cons_inv in Hc as (-> & mc' & Hmc' & <- & Hc).
    apply chain_cons_inv in Hc as (Hn & ml' & Hml' & _ & Hc).
    rewrite Hmc in Hmc'. injection Hmc' as <-. rewrite Hml in Hml'. injection Hml' as <-.
    change (data mc) with (data (Member (data mc) (next ml))).
    econstructor; [apply lookup_insert_eq|]. cbn.
    apply (chain_frame h); [exact Hc|]. intros l0 Hl0. apply lookup_insert_ne.
    intros Heq. subst l0. apply NoDup_cons in Hnd as [Hnd _]. apply Hnd.
    apply elem_of_cons. right. exact Hl0.
  - apply chain_cons_inv in Hc as (-> & m0 & Hm0 & <- & Hc).
    apply NoDup_cons in Hnd as [Hnin Hnd].
    econstructor; [rewrite lookup_insert_ne; [exact Hm0|]|].
    + intros Heq. subst p0. apply Hnin. apply elem_of_app. right. apply elem_of_cons. left. reflexivity.
    + apply IH; auto; lia.
Qed.

Lemma remove_scan_spec n st s f e cur ps l rest y ys x xs' :
  match_ s = Some f ->
  chain (heap st) (Some cur) (cur :: ps ++ l :: rest) (y :: ys ++ x :: xs') ->
  length ps = length ys -> Forall (fun z => f z e <> 1%Z) ys -> f x e = 1%Z ->
  (length ps < n)%nat ->
  exists pre c, cur :: ps = pre ++ [c] /\ remove_scan n s e cur st = Some (c, st).
Proof.
  revert n cur y ys. induction ps as [|p ps IH]; intros n cur y ys Hf Hc Hlen Hys Hx Hn;
    destruct ys as [|y1 ys]; simpl in Hlen; try discriminate;
    (destruct n as [|n]; [simpl in Hn; lia|]).
  - exists [], cur. split; [reflexivity|].
    apply chain_cons_inv in Hc as (_ & mc & Hmc & _ & Hc).
    apply chain_cons_inv in Hc as (Hn' & ml & Hml & Hd & _).
    cbn [remove_scan]. erewrite bind_ok; [|apply load_ok; exact Hmc]. rewrite Hn'.
    erewrite bind_ok; [|apply load_ok; exact Hml].
    unfold call_match. rewrite Hf. cbn [bind ret]. rewrite Hd, Hx. reflexivity.
  - inversion Hys as [|? ? Hy1 Hys']; subst.
    pose proof Hc as Hc0.
    apply chain_cons_inv in Hc as (_ & mc & Hmc & _ & Hc).
    pose proof Hc as Hc1.
    apply chain_cons_inv in Hc as (Hn' & mp & Hmp & Hd & _).
    rewrite Hn' in Hc1.
    destruct (IH n p y1 ys Hf Hc1) as (pre & c & Heq & Hrun); auto; [simpl in Hn; lia|].
    exists (cur :: pre), c. split; [rewrite Heq; reflexivity|].
    cbn [remove_scan]. erewrite bind_ok; [|apply load_ok; exact Hmc]. rewrite Hn'.
    erewrite bind_ok; [|apply load_ok; exact Hmp].
    unfold call_match. rewrite Hf. cbn [bind ret]. rewrite Hd.
    destruct (Z.eqb_spec (f y1 e) 1); [contradiction|]. exact Hrun.
Qed.


Lemma set_remove_inner st s f e pre l l' ls2 ys x x' xs2 :
  set_ok st s (pre ++ l :: l' :: ls2) (ys ++ x :: x' :: xs2) -> match_ s = Some f ->
  length pre = length ys -> ys <> [] -> Forall (fun y => f y e <> 1%Z) ys -> f x e = 1%Z ->
  exists s' st',
    set_remove (Some s) (Some e) st = Some ((0%Z, Some s', Some x), st') /\
    set_ok st' s' (pre ++ l' :: ls2) (ys ++ x' :: xs2) /\
    size s' = (size s - 1)%Z /\ match_ s' = match_ s /\ destroy s' = destroy s /\
    freed st' = l :: freed st /\ released st' = released st /\ fresh st' = fresh st.
Proof.
  intros Hok Hf Hlen Hne Hys Hx. pose proof Hok as [Hc Hsz Htl Hnd Hb].
  destruct ys as [|y0 ys1]; [contradiction|].
  destruct pre as [|p0 pre1]; [simpl in Hlen; discriminate|].
  inversion Hys as [|? ? Hy0 Hys1]; subst.
  pose proof Hc as Hc0.
  apply chain_cons_inv in Hc as (Hh & m0 & Hm0 & Hd0 & _).
  assert (HcS : chain (heap st) (Some p0) (p0 :: pre1 ++ l :: l' :: ls2)
                       (y0 :: ys1 ++ x :: x' :: xs2)) by (rewrite <- Hh; exact Hc0).
  assert (HlS : length pre1 = length ys1) by (simpl in Hlen; lia).
  assert (HnS : (length pre1 < S (fresh st))%nat).
  { pose proof (length_le_bound _ _ Hnd Hb) as Hle. rewrite length_app in Hle. simpl in Hle. lia. }
  destruct (remove_scan_spec (S (fresh st)) st s f e p0 pre1 l (l' :: ls2) y0 ys1 x (x' :: xs2)
              Hf HcS HlS Hys1 Hx HnS) as (pre' & c & Hpre & Hscan).
  destruct (exists_last (l := y0 :: ys1) ltac:(discriminate)) as (ys' & yc & Hys').
  assert (Hlen' : length pre' = length ys').
  { pose proof (f_equal length Hpre) as E1. pose proof (f_equal length Hys') as E2.
    rewrite length_app in E1, E2. simpl in E1, E2, Hlen. lia. }
  pose proof Hc0 as Hc2. rewrite Hpre, Hys' in Hc2.
  pose proof Hc2 as Hc1. rewrite <- !app_assoc in Hc1. cbn [app] in Hc1.
  destruct (chain_pred _ _ _ _ _ _ _ _ _ _ Hc1 Hlen') as (mc & Hmc & Hnc & Hdc).
  destruct (chain_pred _ _ _ _ _ _ _ _ _ _ Hc2) as (ml & Hml & Hnl & Hdl).
  { rewrite !length_app. simpl. lia. }
  assert (Hnd1 : NoDup (pre' ++ c :: l :: l' :: ls2)).
  { rewrite Hpre, <- app_assoc in Hnd. exact Hnd. }
  assert (Hlnin : l ∉ l' :: ls2).
  { apply NoDup_app in Hnd as (_ & _ & Hnd'). apply NoDup_cons in Hnd' as [H _]. exact H. }
  assert (Htail : bool_decide (Some l = tail s) = false).
  { apply bool_decide_eq_false. intros E. rewrite Htl, last_app_cons, last_cons_cons in E.
    apply Hlnin. apply last_Some_elem_of. symmetry. exact E. }
  assert (Hmem : mem_by f ((y0 :: ys1) ++ x :: x' :: xs2) e = true).
  { apply mem_by_true. exists x. split; [apply in_app_iff; right; left; reflexivity | exact Hx]. }
  unfold set_remove.
  erewrite bind_ok; [|apply (set_ismember_spec st s _ _ f e Hok Hf)].
  rewrite Hmem. cbn [negb Z.eqb Pos.eqb andb].
  rewrite Hh. erewrite bind_ok; [|apply load_ok; exact Hm0].
  unfold call_match. rewrite Hf. cbn [bind ret]. rewrite Hd0.
  rewrite (proj2 (Z.eqb_neq _ _) Hy0). cbn [negb].
  erewrite bind_ok; [|unfold with_fuel; exact Hscan].
  erewrite bind_ok; [|apply load_ok; exact Hmc]. rewrite Hnc.
  erewrite bind_ok; [|apply load_ok; exact Hml].
  rewrite Htail.
  erewrite bind_ok.
  2:{ unfold store_next. erewrite bind_ok; [|apply load_ok; exact Hmc]. reflexivity. }
  unfold remove_finish. rewrite Hdl. eexists _, _. split; [reflexivity|].
  split; [split|]; cbn.
  - rewrite !app_comm_cons, Hpre, Hys', <- !app_assoc. cbn [app].
    apply (chain_splice _ _ _ _ _ _ _ _ x _ _ _ Hc1 Hlen' Hnd1 Hmc Hml).
  - rewrite Hsz, !length_app. simpl. lia.
  - rewrite Htl, app_comm_cons, !last_app_cons, last_cons_cons. reflexivity.
  - apply NoDup_ListNoDup. apply NoDup_ListNoDup in Hnd.
    apply (NoDup_remove_1 _ _ _ Hnd).
  - rewrite app_comm_cons. rewrite Forall_forall in Hb |- *. intros z Hz. apply Hb.
    apply elem_of_app in Hz as [Hz|Hz]; apply elem_of_app; [left; exact Hz|right].
    apply elem_of_cons. right. exact Hz.
  - repeat split.
  all: exact Hf.
Qed.

End RemoveLemmas.

(** * Lemmas about traversal, destruction, draining and difference *)

Section LoopLemmas.
Context {A : Type}.
Implicit Types (st : state A) (s : set A) (ls : list loc) (xs : list A).

Lemma set_ok_same st st' s ls xs :
  heap st' = heap st -> fresh st' = fresh st -> set_ok st s ls xs -> set_ok st' s ls xs.
Proof.
  intros Hh Hf [Hc Hsz Htl Hnd Hb]. split; auto.
  - rewrite Hh. exact Hc.
  - rewrite Hf. exact Hb.
Qed.

Lemma destroy_loop_spec n st s ls xs :
  chain (heap st) (head s) ls xs -> size s = Z.of_nat (length ls) -> (length ls < n)%nat ->
  exists st', destroy_loop n s st = Some (tt, st') /\
    heap st' = heap st /\ fresh st' = fresh st /\ freed st' = rev ls ++ freed st /\
    released st' = released st ++ (match destroy s with Some _ => xs | None => [] end) /\
    mallocs st' = mallocs st.
Proof.
  revert n st s xs. induction ls as [|l ls IH]; intros n st s xs Hc Hsz Hn;
    (destruct n as [|n]; [simpl in Hn; lia|]); cbn [destroy_loop].
  - apply chain_nil_inv in Hc as [_ ->]. rewrite Hsz. cbn.
    exists st. repeat split; try reflexivity. destruct (destroy s); symmetry; apply app_nil_r.
  - destruct xs as [|x xs]; [apply chain_length in Hc; discriminate|].
    apply chain_cons_inv in Hc as (Hh & m & Hm & Hd & Hc).
    rewrite Hsz. assert (E : (0 <? Z.of_nat (length (l :: ls)))%Z = true) by (apply Z.ltb_lt; simpl; lia).
    rewrite E, Hh. erewrite bind_ok; [|apply load_ok; exact Hm].
    set (s' := set_with_size (set_with_head s (next m)) (Z.of_nat (length (l :: ls)) - 1)).
    unfold bind at 1, free_member. cbn beta iota.
    assert (Hds' : destroy s' = destroy s) by reflexivity.
    assert (Hc' : chain (heap st) (head s') ls xs) by exact Hc.
    assert (Hsz' : size s' = Z.of_nat (length ls)) by (unfold s'; cbn; lia).
    assert (Hn' : (length ls < n)%nat) by (simpl in Hn; lia).
    destruct (destroy s) as [dd|] eqn:Hds; cbn [bind release ret]; rewrite ?Hd.
    + destruct (IH n (MkState (heap st) (fresh st) (l :: freed st) (released st ++ [x]) (mallocs st)) s' xs)
        as (st' & Hrun & Hh' & Hf' & Hfr' & Hr' & Hm'); [exact Hc' | exact Hsz' | exact Hn' |].
      exists st'. split; [exact Hrun|]. rewrite Hds' in Hr'.
      rewrite Hh', Hf', Hfr', Hr', Hm'. cbn. rewrite <- !app_assoc. repeat split.
    + destruct (IH n (MkState (heap st) (fresh st) (l :: freed st) (released st) (mallocs st)) s' xs)
        as (st' & Hrun & Hh' & Hf' & Hfr' & Hr' & Hm'); [exact Hc' | exact Hsz' | exact Hn' |].
      exists st'. split; [exact Hrun|]. rewrite Hds' in Hr'.
      rewrite Hh', Hf', Hfr', Hr', Hm'. cbn. rewrite <- !app_assoc. repeat split.
Qed.

Lemma traverse_loop_spec {B} n st (func : A -> B -> B) p cl zs b :
  chain (heap st) p cl zs -> (length cl < n)%nat ->
  traverse_loop n func p b st = Some (fold_left (fun b x => func x b) zs b, st).
Proof.
  revert n p zs b. induction cl as [|c cl IH]; intros n p zs b Hc Hn.
  - apply chain_nil_inv in Hc as [-> ->]. destruct n; reflexivity.
  - destruct zs as [|z zs]; [apply chain_length in Hc; discriminate|].
    apply chain_cons_inv in Hc as (-> & m & Hm & <- & Hc).
    destruct n as [|n]; [simpl in Hn; lia|].
    cbn [traverse_loop]. erewrite bind_ok; [|apply load_ok; exact Hm].
    erewrite bind_ok; [|apply load_ok; exact Hm].
    cbn [fold_left]. apply IH; [exact Hc | simpl in Hn; lia].
Qed.

Lemma drain_loop_spec n st s ls xs :
  set_ok st s ls xs -> (length ls < n)%nat ->
  exists s' st', drain_loop n s st = Some ((false, xs, s'), st') /\
    size s' = 0%Z /\ head s' = None /\ tail s' = None /\
    match_ s' = match_ s /\ destroy s' = destroy s /\
    heap st' = heap st /\ fresh st' = fresh st /\ freed st' = rev ls ++ freed st /\
    released st' = released st ++ xs /\ mallocs st' = mallocs st.
Proof.
  revert n st s xs. induction ls as [|l ls IH]; intros n st s xs Hok Hn;
    (destruct n as [|n]; [simpl in Hn; lia|]); cbn [drain_loop];
    pose proof Hok as [Hc Hsz Htl Hnd Hb].
  - apply chain_nil_inv in Hc as [Hh ->]. rewrite Hsz. cbn.
    exists s, st. repeat split; auto; rewrite app_nil_r; reflexivity.
  - destruct xs as [|x xs]; [apply chain_length in Hc; discriminate|].
    rewrite Hsz. assert (E : (0 <? Z.of_nat (length (l :: ls)))%Z = true) by (apply Z.ltb_lt; simpl; lia).
    rewrite E.
    destruct (set_remove_first st s l ls x xs None (fun _ _ => 0%Z) Hok (or_introl eq_refl))
      as (s1 & Hrm & Hok1 & Hf1 & Hd1 & Hsz1).
    erewrite bind_ok; [|exact Hrm]. cbn.
    set (st2 := MkState (heap st) (fresh st) (l :: freed st) (released st ++ [x]) (mallocs st)).
    destruct (IH n st2 s1 xs) as (s' & st' & Hrun & Hs0 & Hh' & Ht' & Hf' & Hd' & Hhp & Hfr & Hfd & Hrl & Hml).
    { eapply set_ok_same; [| |exact Hok1]; reflexivity. }
    { simpl in Hn. lia. }
    erewrite bind_ok; [|exact Hrun]. cbn.
    exists s', st'. repeat split; auto; try congruence.
    + rewrite Hfd. cbn. rewrite <- app_assoc. reflexivity.
    + rewrite Hrl. cbn. rewrite <- app_assoc. reflexivity.
Qed.

Lemma diff_members_spec n st s2 g xs2 out ols ys f p cl zs (F : nat) :
  member_ok st F g s2 xs2 ->
  chain (heap st) p cl zs -> NoDup cl -> Forall (fun l => l < F)%nat cl ->
  (length cl < n)%nat ->
  set_ok st out ols ys -> Forall (fun l => F <= l)%nat ols -> (F <= fresh st)%nat ->
  match_ out = Some f -> alloc_ok st ->
  nodup_by f (ys ++ List.filter (fun x => negb (mem_by g xs2 x)) zs) ->
  exists out' ols' st',
    diff_members n s2 out p st = Some ((0%Z, out'), st') /\
    set_ok st' out' ols' (ys ++ List.filter (fun x => negb (mem_by g xs2 x)) zs) /\
    Forall (fun l => F <= l)%nat ols' /\ (F <= fresh st')%nat /\
    match_ out' = match_ out /\ destroy out' = destroy out /\ alloc_ok st' /\
    freed st' = freed st /\ released st' = released st /\
    (forall l, (l < F)%nat -> heap st' !! l = heap st !! l).
Proof.
  revert n st out ols ys p zs.
  induction cl as [|c cl IH]; intros n st out ols ys p zs Hs2 Hc Hnd Hb Hn Hok Hge HF Hf Ha Hnb.
  - apply chain_nil_inv in Hc as [-> ->].
    destruct n; exists out, ols, st; cbn [List.filter]; rewrite app_nil_r;
      (split; [reflexivity| split; [exact Hok| repeat split; auto]]).
  - inversion Hc as [|c' m cl' zs' Hm Hrest]; subst.
    apply NoDup_cons in Hnd as [Hnin Hnd]. inversion Hb as [|c' cl'' Hcb Hb']; subst.
    destruct n as [|n]; [simpl in Hn; lia|].
    pose proof Hs2 as (ls2 & Hok2 & Hg & _).
    cbn [diff_members]. erewrite bind_ok; [|apply load_ok; exact Hm].
    erewrite bind_ok; [|apply (set_ismember_spec _ _ _ _ _ (data m) Hok2 Hg)].
    cbn [List.filter] in Hnb |- *.
    destruct (mem_by g xs2 (data m)) eqn:Hmem2; cbn [negb Z.eqb].
    + cbn [bind ret]. rewrite Z.eqb_refl. cbn [negb]. erewrite bind_ok; [|apply load_ok; exact Hm].
      apply (IH n st out ols ys (next m) zs'); auto. simpl in Hn. lia.
    + assert (Hmem : mem_by f ys (data m) = false) by (eapply nodup_by_mid; exact Hnb).
      destruct (set_insert_new _ _ _ _ _ _ Hok Hf Hmem Ha)
        as (s1 & st1 & Hins & Hok1 & Hf1 & Hd1 & _ & _ & Hfr1 & Ha1 & Hfd1 & Hrl1 & Hh1).
      assert (Hbelow : forall l, (l < F)%nat -> heap st1 !! l = heap st !! l).
      { intros l Hl. apply Hh1; [|lia].
        intros Hin. rewrite Forall_forall in Hge. specialize (Hge _ Hin). lia. }
      erewrite bind_ok.
      2:{ unfold bind. rewrite Hins. reflexivity. }
      cbn [negb Z.eqb].
      erewrite bind_ok; [|apply load_ok; rewrite Hbelow by exact Hcb; exact Hm].
      destruct (IH n st1 s1 (ols ++ [fresh st]) (ys ++ [data m]) (next m) zs')
        as (out' & ols' & st' & Hrun & Hok' & Hge' & HF' & Hf' & Hd' & Ha' & Hfd' & Hrl' & Hh');
        auto.
      * apply (member_ok_frame st); auto. lia.
      * apply (chain_frame_below (heap st) _ _ _ _ F); auto.
      * simpl in Hn. lia.
      * apply Forall_app. split; [exact Hge|]. constructor; [lia|constructor].
      * lia.
      * rewrite Hf1. exact Hf.
      * rewrite <- app_assoc. exact Hnb.
      * exists out', ols', st'.
        split; [exact Hrun|]. split; [rewrite <- app_assoc in Hok'; exact Hok'|].
        repeat split; auto; try congruence.
        intros l Hl. rewrite Hh' by exact Hl. apply Hbelow, Hl.
Qed.
Lemma main_drain_spec st s ls xs :
  set_ok st s ls xs ->
  exists st', main_drain s st = Some ((false, xs, Handle None), st') /\
    released st' = released st ++ xs /\ freed st' = rev ls ++ freed st /\
    heap st' = heap st /\ fresh st' = fresh st.
Proof.
  intros Hok. pose proof Hok as [_ _ _ Hnd Hb].
  destruct (drain_loop_spec (S (fresh st)) st s ls xs Hok)
    as (s' & st' & Hrun & Hs0 & _ & _ & _ & _ & Hh & Hf & Hfd & Hrl & _).
  { pose proof (length_le_bound _ _ Hnd Hb). lia. }
  exists st'. unfold main_drain, with_fuel. erewrite bind_ok; [|exact Hrun]. cbn beta iota.
  unfold set_destroy. rewrite Hs0. cbn [Z.to_nat destroy_loop]. rewrite Hs0. cbn. auto.
Qed.

End LoopLemmas.

(** * Lemmas about equality tests and input frames *)

Section EqualLemmas.
Context {A : Type}.
Implicit Types (st : state A) (s : set A) (ls : list loc) (xs : list A).

Lemma set_isequal_spec st s1 s2 ls1 xs1 ls2 xs2 f :
  set_ok st s1 ls1 xs1 -> set_ok st s2 ls2 xs2 -> match_ s2 = Some f ->
  set_isequal (Some s1) (Some s2) st =
    Some (if (length xs1 =? length xs2)%nat && forallb (mem_by f xs2) xs1 then 1%Z else 0%Z, st).
Proof.
  intros Hok1 Hok2 Hf. pose proof Hok1 as [Hc1 Hsz1 _ Hnd1 Hb1].
  pose proof Hok2 as [Hc2 Hsz2 _ _ _].
  unfold set_isequal. rewrite Hsz1, Hsz2, (chain_length _ _ _ _ Hc1), (chain_length _ _ _ _ Hc2).
  destruct (Nat.eqb_spec (length xs1) (length xs2)) as [E|E]; cbn [andb].
  - rewrite E, Z.eqb_refl. cbn [negb]. unfold with_fuel.
    apply (subset_scan_spec _ _ _ ls2 _ _ _ ls1); auto.
    pose proof (length_le_bound _ _ Hnd1 Hb1). lia.
  - assert (E' : (Z.of_nat (length xs1) =? Z.of_nat (length xs2))%Z = false) by (apply Z.eqb_neq; lia).
    rewrite E'. reflexivity.
Qed.
Lemma member_ok_input st F f s xs : member_ok st F f s xs -> input_ok st F s xs.
Proof. intros (ls & [Hc _ _ Hnd _] & _ & Hb). exists ls. auto. Qed.

End EqualLemmas.

Lemma mem_by_int_match xs d : mem_by int_match xs d = true <-> In d xs.
Proof.
  unfold mem_by. rewrite existsb_exists. split.
  - intros (x & Hin & Hx). unfold int_match in Hx.
    destruct (Z.eqb_spec x d) as [->|]; [exact Hin | discriminate].
  - intros Hin. exists d. split; [exact Hin|]. rewrite int_match_refl. reflexivity.
Qed.

(** * Lemmas about the insertion loop of [main] *)

Lemma fill_loop_spec n rands st s ls xs rest s' st' :
  set_ok st s ls xs -> match_ s = Some int_match -> NoDup xs ->
  Forall (fun x => 0 <= x < 10)%Z xs -> alloc_ok st -> Forall (fun r => 0 <= r)%Z rands ->
  fill_loop n rands s st = Some ((rest, s'), st') ->
  exists ls' ys, set_ok st' s' ls' ys /\ match_ s' = Some int_match /\ NoDup ys /\
    Forall (fun x => 0 <= x < 10)%Z ys /\ (10 <= length ys)%nat.
Proof.
  revert rands st s ls xs.
  induction n as [|n IH]; intros rands st s ls xs Hok Hf Hnd Hrng Ha Hr Hrun; [discriminate|].
  cbn [fill_loop] in Hrun. pose proof Hok as [Hc Hsz _ _ _].
  destruct (Z.ltb_spec (size s) 10) as [Hlt|Hge].
  - destruct rands as [|r rs]; [discriminate|].
    apply Forall_cons in Hr as [Hr0 Hr].
    set (x := Z.rem r 10) in Hrun.
    assert (Hx : (0 <= x < 10)%Z) by (unfold x; rewrite Z.rem_mod_nonneg by lia; apply Z.mod_pos_bound; lia).
    destruct (mem_by int_match xs x) eqn:Hm.
    + rewrite (bind_ok _ _ _ _ _ (set_insert_member _ _ _ _ _ _ Hok Hf Hm)) in Hrun.
      cbn in Hrun.
      eapply (IH rs (MkState (heap st) (fresh st) (freed st) (released st ++ [x]) (mallocs st)) s ls xs); [| exact Hf | exact Hnd | exact Hrng | exact Ha | exact Hr | exact Hrun].
      eapply set_ok_same; [| |exact Hok]; reflexivity.
    + destruct (set_insert_new _ _ _ _ _ _ Hok Hf Hm Ha)
        as (s1 & st1 & Hins & Hok1 & Hf1 & _ & _ & _ & _ & Ha1 & _).
      rewrite (bind_ok _ _ _ _ _ Hins) in Hrun. cbn in Hrun.
      eapply (IH rs st1 s1); [exact Hok1 | congruence | | | exact Ha1 | exact Hr | exact Hrun].
      * apply NoDup_app. split; [exact Hnd|]. split; [|apply NoDup_singleton].
        intros y Hy Hy'. apply list_elem_of_singleton in Hy' as ->.
        apply list_elem_of_In, (proj2 (mem_by_int_match _ _)) in Hy. congruence.
      * apply Forall_app. split; [exact Hrng | constructor; [exact Hx | constructor]].
  - cbn in Hrun. injection Hrun as <- <- <-.
    exists ls, xs. split; [exact Hok|]. split; [exact Hf|]. split; [exact Hnd|].
    split; [exact Hrng|]. rewrite Hsz in Hge. rewrite <- (chain_length _ _ _ _ Hc). lia.
Qed.

Lemma digits_perm ys : NoDup ys -> Forall (fun x => 0 <= x < 10)%Z ys -> (10 <= length ys)%nat ->
  ys ≡ₚ [0; 1; 2; 3; 4; 5; 6; 7; 8; 9]%Z.
Proof.
  intros Hnd Hr Hl. apply NoDup_Permutation_bis; [apply NoDup_ListNoDup, Hnd | simpl; lia |].
  intros y Hy. rewrite Forall_forall in Hr. specialize (Hr y (proj2 (list_elem_of_In _ _) Hy)).
  assert (y = 0 \/ y = 1 \/ y = 2 \/ y = 3 \/ y = 4 \/ y = 5 \/ y = 6 \/ y = 7 \/ y = 8 \/ y = 9)%Z
    as H by lia.
  simpl. lia.
Qed.

(** * The claims *)

(** C1: a failure partway through an algebra operation.  The only way an
    insertion into the output can fail is an allocation failure, and
    [set_insert] does not report it: [new->data = data] writes through the
    NULL pointer.  In the union of {0,1,2} and {2,4,6}, when the output set
    is allocated but its first member cell is not, the run reaches
    undefined behaviour instead of tearing the output down. *)
Theorem union_alloc_failure_faults : union_fail_run init_state = None.
Proof. vm_compute. reflexivity. Qed.

(** C2: after removing the tail member of {1,2} and inserting 3, both
    calls report success (0), yet [size] is 2 while the chain from [head]
    holds the single member 1: [tail] still designated the freed cell of 2,
    and the new member was linked from that freed cell. *)
Theorem remove_tail_breaks_size :
  exists s st,
    remove_tail_run init_state = Some ((0%Z, 0%Z, Some s), st) /\
    size s = 2%Z /\ chain (heap st) (head s) [1%nat] [1%Z] /\
    tail s = Some 3%nat /\ 2%nat ∈ freed st.
Proof.
  destruct (remove_tail_run init_state) as [p|] eqn:E; vm_compute in E; [|discriminate].
  injection E as <-. eexists _, _. split; [reflexivity|].
  split; [reflexivity|]. split; [|split; [reflexivity|]].
  - apply (chain_check_sound 5). vm_compute. reflexivity.
  - cbn. apply elem_of_cons. left. reflexivity.
Qed.

(** C3: a successful union of well-formed input sets [s0, ss...] (all
    built with the reflexive [match] [f] of [s0]) produces a well-formed
    set whose members [ys] are the inputs' elements deduplicated by
    [match] in order of first appearance: every member comes from some
    input, every element of every input is matched by a member, no member
    matches a later one, and [size] counts them. *)
Theorem set_union_correct {A} (st : state A) (s0 : set A) ss xs0 xss f :
  match_ s0 = Some f -> (forall a, f a a = 1%Z) ->
  input_ok st (fresh st) s0 xs0 -> Forall2 (input_ok st (fresh st)) ss xss ->
  alloc_ok st ->
  exists u ls st' ys,
    set_union (Handle None) (Some s0 :: map Some ss) st = Some ((0%Z, Handle (Some u)), st') /\
    set_ok st' u ls ys /\ size u = Z.of_nat (length ys) /\
    ys = fold_left (add_by f) (xs0 ++ xs0 ++ concat xss) [] /\
    (forall y, In y ys -> exists xs, In xs (xs0 :: xss) /\ In y xs) /\
    (forall xs x, In xs (xs0 :: xss) -> In x xs -> mem_by f ys x = true) /\
    nodup_by f ys.
Proof.
  intros Hf Hrefl Hin Hins Ha.
  destruct (set_union_spec st s0 ss xs0 xss f Hf Hin Hins Ha)
    as (u & ls & st' & Hrun & Hok & _ & _).
  exists u, ls, st', (fold_left (add_by f) (xs0 ++ xs0 ++ concat xss) []).
  split; [exact Hrun|]. split; [exact Hok|].
  split; [rewrite (ok_size _ _ _ _ Hok); f_equal; apply (chain_length _ _ _ _ (ok_chain _ _ _ _ Hok))|].
  split; [reflexivity|]. split; [|split].
  - intros y Hy. apply fold_add_origin in Hy as [[]|Hy].
    apply in_app_iff in Hy as [Hy|Hy]; [exists xs0; split; [left; reflexivity | exact Hy]|].
    apply in_app_iff in Hy as [Hy|Hy]; [exists xs0; split; [left; reflexivity | exact Hy]|].
    apply in_concat in Hy as (xs & Hxs & Hy). exists xs. split; [right; exact Hxs | exact Hy].
  - intros xs x Hxs Hx. apply fold_add_covers; [exact Hrefl|].
    destruct Hxs as [<-|Hxs]; [apply in_app_iff; left; exact Hx|].
    apply in_app_iff; right. apply in_app_iff; right. apply in_concat. exists xs. auto.
  - apply fold_add_nodup. exact I.
Qed.

Lemma set_union_correct_witness :
  let xss := [[0; 1; 2]; [2; 4; 6]]%Z in
  let st := ex_state xss in
  let a := ex_set xss 0 in
  let b := ex_set xss 1 in
  (match_ a = Some int_match /\ (forall x, int_match x x = 1%Z) /\
   input_ok st (fresh st) a [0; 1; 2]%Z /\
   Forall2 (input_ok st (fresh st)) [b] [[2; 4; 6]%Z] /\ alloc_ok st) /\
  (exists u ls st' ys,
    set_union (Handle None) (Some a :: map Some [b]) st = Some ((0%Z, Handle (Some u)), st') /\
    set_ok st' u ls ys /\ size u = Z.of_nat (length ys) /\
    ys = fold_left (add_by int_match) ([0; 1; 2] ++ [0; 1; 2] ++ concat [[2; 4; 6]])%Z [] /\
    (forall y, In y ys -> exists xs, In xs ([0; 1; 2] :: [[2; 4; 6]])%Z /\ In y xs) /\
    (forall xs x, In xs ([0; 1; 2] :: [[2; 4; 6]])%Z -> In x xs -> mem_by int_match ys x = true) /\
    nodup_by int_match ys) /\
  fold_left (add_by int_match) ([0; 1; 2] ++ [0; 1; 2] ++ concat [[2; 4; 6]])%Z [] = [0; 1; 2; 4; 6]%Z.
Proof.
  intros xss st a b.
  assert (Hf : match_ a = Some int_match) by (vm_compute; reflexivity).
  assert (Ha : input_ok st (fresh st) a [0; 1; 2]%Z)
    by (apply (set_ok_check_input st a [1; 2; 3]%nat); vm_compute; reflexivity).
  assert (Hb : Forall2 (input_ok st (fresh st)) [b] [[2; 4; 6]%Z]).
  { constructor; [|constructor].
    apply (set_ok_check_input st b [5; 6; 7]%nat); vm_compute; reflexivity. }
  assert (Hal : alloc_ok st) by (vm_compute; constructor).
  split; [split; [exact Hf | split; [exact int_match_refl | split; [exact Ha | split; [exact Hb | exact Hal]]]]|].
  split; [|vm_compute; reflexivity].
  apply (set_union_correct st a [b] [0; 1; 2]%Z [[2; 4; 6]%Z] int_match Hf int_match_refl Ha Hb Hal).
Defined.

(** C4 (counterexample): the intersection of the single set {0,1,2}
    succeeds (0) and yields a copy of it; there is no check for at least
    two input sets. *)
Lemma single_intersection_succeeds :
  exists u st, single_inter_run init_state = Some ((0%Z, Handle (Some u)), st) /\ size u = 3%Z.
Proof.
  destruct (single_inter_run init_state) as [p|] eqn:E; vm_compute in E; [|discriminate].
  injection E as <-. eexists _, _. split; reflexivity.
Qed.

(** C4 (amended): with no input set the intersection fails (-1); given
    one or more well-formed input sets sharing the [match] [f], the first
    of them with no two matching elements, the intersection into an absent
    output succeeds (0) and the output's members are exactly the elements
    of the first set, in its order, that are members per [match] of every
    other input set (with a single input set, a copy of it). *)
Theorem set_intersection_correct {A} (st : state A) (s0 : set A) ss xs0 xss f :
  match_ s0 = Some f -> input_ok st (fresh st) s0 xs0 -> nodup_by f xs0 ->
  Forall2 (member_ok st (fresh st) f) ss xss -> alloc_ok st ->
  set_intersection (Handle None) [] st = Some ((-1)%Z, Handle None, st) /\
  exists u ls st',
    set_intersection (Handle None) (Some s0 :: map Some ss) st =
      Some ((0%Z, Handle (Some u)), st') /\
    set_ok st' u ls (List.filter (fun x => forallb (fun xs => mem_by f xs x) xss) xs0).
Proof.
  intros Hf Hin Hnd Hss Ha. split; [reflexivity|].
  destruct (set_intersection_spec st s0 ss xs0 xss f Hf Hin Hss Ha)
    as (u & ls & st' & Hrun & Hok & _ & _).
  exists u, ls, st'. split; [exact Hrun|].
  rewrite (fold_add_nodup_id f _ []) in Hok; [exact Hok|].
  apply nodup_by_filter. exact Hnd.
Qed.

Lemma set_intersection_correct_witness :
  let xss := [[0; 1; 2]; [2; 4; 6]]%Z in
  let st := ex_state xss in
  let a := ex_set xss 0 in
  let b := ex_set xss 1 in
  (match_ a = Some int_match /\ input_ok st (fresh st) a [0; 1; 2]%Z /\
   nodup_by int_match [0; 1; 2]%Z /\
   Forall2 (member_ok st (fresh st) int_match) [b] [[2; 4; 6]%Z] /\ alloc_ok st) /\
  (set_intersection (Handle None) [] st = Some ((-1)%Z, Handle None, st) /\
   exists u ls st',
     set_intersection (Handle None) (Some a :: map Some [b]) st =
       Some ((0%Z, Handle (Some u)), st') /\
     set_ok st' u ls
       (List.filter (fun x => forallb (fun xs => mem_by int_match xs x) [[2; 4; 6]%Z]) [0; 1; 2]%Z)) /\
  List.filter (fun x => forallb (fun xs => mem_by int_match xs x) [[2; 4; 6]%Z]) [0; 1; 2]%Z = [2%Z].
Proof.
  intros xss st a b.
  assert (Hf : match_ a = Some int_match) by (vm_compute; reflexivity).
  assert (Ha : input_ok st (fresh st) a [0; 1; 2]%Z)
    by (apply (set_ok_check_input st a [1; 2; 3]%nat); vm_compute; reflexivity).
  assert (Hnd : nodup_by int_match [0; 1; 2]%Z)
    by (cbn; repeat (constructor || split); vm_compute; discriminate).
  assert (Hb : Forall2 (member_ok st (fresh st) int_match) [b] [[2; 4; 6]%Z]).
  { constructor; [|constructor].
    apply (set_ok_check_member st b [5; 6; 7]%nat); vm_compute; reflexivity. }
  assert (Hal : alloc_ok st) by (vm_compute; constructor).
  split; [exact (conj Hf (conj Ha (conj Hnd (conj Hb Hal))))|].
  split; [|vm_compute; reflexivity].
  apply (set_intersection_correct st a [b] [0; 1; 2]%Z [[2; 4; 6]%Z] int_match Hf Ha Hnd Hb Hal).
Defined.

(** C5: [set_issubset] of two well-formed sets returns 1 exactly when
    every element of [s1] is a member of [s2] per [s2]'s [match], and 0
    otherwise; in particular an empty [s1] gives 1 and a non-empty [s1]
    against an empty [s2] gives 0. *)
Theorem set_issubset_correct {A} (st : state A) s1 s2 ls1 xs1 ls2 xs2 f :
  set_ok st s1 ls1 xs1 -> set_ok st s2 ls2 xs2 -> match_ s2 = Some f ->
  set_issubset (Some s1) (Some s2) st =
    Some (if forallb (mem_by f xs2) xs1 then 1%Z else 0%Z, st) /\
  (xs1 = [] -> set_issubset (Some s1) (Some s2) st = Some (1%Z, st)) /\
  (xs1 <> [] -> xs2 = [] -> set_issubset (Some s1) (Some s2) st = Some (0%Z, st)).
Proof.
  intros Hok1 Hok2 Hf. rewrite (set_issubset_spec st s1 s2 ls1 xs1 ls2 xs2 f Hok1 Hok2 Hf).
  split; [reflexivity|]. split.
  - intros ->. reflexivity.
  - intros Hne ->. destruct xs1 as [|x xs1]; [contradiction|]. reflexivity.
Qed.

Lemma set_issubset_correct_witness :
  let xss := [[]; [1; 2; 3]]%Z in
  let st := ex_state xss in
  let a := ex_set xss 0 in
  let b := ex_set xss 1 in
  (set_ok st a [] [] /\ set_ok st b [2; 3; 4]%nat [1; 2; 3]%Z /\ match_ b = Some int_match) /\
  (set_issubset (Some a) (Some b) st =
     Some (if forallb (mem_by int_match [1; 2; 3]%Z) [] then 1%Z else 0%Z, st) /\
   ([] = @nil Z -> set_issubset (Some a) (Some b) st = Some (1%Z, st)) /\
   ([] <> @nil Z -> [1; 2; 3]%Z = [] -> set_issubset (Some a) (Some b) st = Some (0%Z, st))) /\
  set_issubset (Some b) (Some a) st = Some (0%Z, st).
Proof.
  intros xss st a b.
  assert (Ha : set_ok st a [] []) by (apply set_ok_check_sound; vm_compute; reflexivity).
  assert (Hb : set_ok st b [2; 3; 4]%nat [1; 2; 3]%Z)
    by (apply set_ok_check_sound; vm_compute; reflexivity).
  assert (Hf : match_ b = Some int_match) by (vm_compute; reflexivity).
  split; [exact (conj Ha (conj Hb Hf))|].
  split; [|vm_compute; reflexivity].
  apply (set_issubset_correct st a b [] [] [2; 3; 4]%nat [1; 2; 3]%Z int_match Ha Hb Hf).
Defined.

(** C6: on a well-formed set [s] with [match] [f], [set_insert] of an
    element [e] that is a member per [match] returns 1 and leaves the set
    and the whole state unchanged; otherwise (allocation succeeding) it
    returns 0 and appends [e] at the tail: the members become [xs ++ [e]],
    [size] grows by one and [tail] is the new cell.  With a reflexive
    [match], a second insertion of [e] returns 1 and changes nothing. *)
Theorem set_insert_correct {A} (st : state A) s ls xs f e :
  set_ok st s ls xs -> match_ s = Some f -> alloc_ok st ->
  (mem_by f xs e = true -> set_insert (Some s) (Some e) st = Some ((1%Z, Some s), st)) /\
  (mem_by f xs e = false ->
     exists s' st',
       set_insert (Some s) (Some e) st = Some ((0%Z, Some s'), st') /\
       set_ok st' s' (ls ++ [fresh st]) (xs ++ [e]) /\
       size s' = (size s + 1)%Z /\ tail s' = Some (fresh st) /\ match_ s' = match_ s) /\
  ((forall a, f a a = 1%Z) ->
     exists r s1 st1,
       set_insert (Some s) (Some e) st = Some ((r, Some s1), st1) /\
       set_insert (Some s1) (Some e) st1 = Some ((1%Z, Some s1), st1) /\
       size s1 = (if mem_by f xs e then size s else size s + 1)%Z).
Proof.
  intros Hok Hf Ha. split; [|split].
  - apply (set_insert_member st s ls xs f e Hok Hf).
  - intros Hm. destruct (set_insert_new st s ls xs f e Hok Hf Hm Ha)
      as (s' & st' & Hins & Hok' & Hf' & _ & Hsz & Htl & _).
    exists s', st'. auto.
  - intros Hrefl. destruct (mem_by f xs e) eqn:Hm.
    + exists 1%Z, s, st. rewrite (set_insert_member st s ls xs f e Hok Hf Hm). auto.
    + destruct (set_insert_new st s ls xs f e Hok Hf Hm Ha)
        as (s' & st' & Hins & Hok' & Hf' & _ & Hsz & _).
      exists 0%Z, s', st'. split; [exact Hins|]. split; [|exact Hsz].
      apply (set_insert_member st' s' _ (xs ++ [e]) f e Hok'); [rewrite Hf'; exact Hf|].
      rewrite mem_by_app. apply orb_true_iff. right. apply mem_by_true.
      exists e. split; [left; reflexivity | apply Hrefl].
Qed.

Lemma set_insert_correct_witness :
  let st := ex_state [[1; 2]]%Z in
  let s := ex_set [[1; 2]]%Z 0 in
  (set_ok st s [1; 2]%nat [1; 2]%Z /\ match_ s = Some int_match /\ alloc_ok st) /\
  ((mem_by int_match [1; 2]%Z 3%Z = true ->
      set_insert (Some s) (Some 3%Z) st = Some ((1%Z, Some s), st)) /\
   (mem_by int_match [1; 2]%Z 3%Z = false ->
      exists s' st',
        set_insert (Some s) (Some 3%Z) st = Some ((0%Z, Some s'), st') /\
        set_ok st' s' ([1; 2]%nat ++ [fresh st]) ([1; 2]%Z ++ [3%Z]) /\
        size s' = (size s + 1)%Z /\ tail s' = Some (fresh st) /\ match_ s' = match_ s) /\
   ((forall a, int_match a a = 1%Z) ->
      exists r s1 st1,
        set_insert (Some s) (Some 3%Z) st = Some ((r, Some s1), st1) /\
        set_insert (Some s1) (Some 3%Z) st1 = Some ((1%Z, Some s1), st1) /\
        size s1 = (if mem_by int_match [1; 2]%Z 3%Z then size s else size s + 1)%Z)) /\
  mem_by int_match [1; 2]%Z 3%Z = false.
Proof.
  intros st s.
  assert (Hok : set_ok st s [1; 2]%nat [1; 2]%Z)
    by (apply set_ok_check_sound; vm_compute; reflexivity).
  assert (Hf : match_ s = Some int_match) by (vm_compute; reflexivity).
  assert (Ha : alloc_ok st) by (vm_compute; constructor).
  split; [exact (conj Hok (conj Hf Ha))|].
  split; [|reflexivity].
  apply (set_insert_correct st s [1; 2]%nat [1; 2]%Z int_match 3%Z Hok Hf Ha).
Defined.

(** C7: [set_create] with an absent [match] does not fail: when the
    allocation succeeds it returns an empty set whose [match] is NULL. *)
Theorem set_create_null_match {A} (st : state A) ds :
  alloc_ok st ->
  exists st', set_create None ds st = Some (Some (MkSet 0%Z None ds None None), st').
Proof.
  intros Ha. destruct (set_create_ok st None ds Ha) as [rest [H _]]. eexists. exact H.
Qed.

Lemma set_create_null_match_witness :
  alloc_ok init_state /\
  exists st', set_create None None init_state =
                Some (Some (MkSet 0%Z None None None None), st').
Proof.
  assert (Ha : alloc_ok init_state) by constructor.
  split; [exact Ha|]. apply (set_create_null_match init_state None Ha).
Defined.

(** C8: [set_difference] into an output handle that already holds the
    non-empty set {5} succeeds (0) and overwrites the handle with a new
    set, here {0,1} = {0,1,2} minus {2}. *)
Theorem difference_overwrites_output :
  exists u st, diff_nonempty_run init_state = Some ((0%Z, Handle (Some u)), st) /\
    size u = 2%Z /\ chain (heap st) (head u) [9; 10]%nat [0; 1]%Z.
Proof.
  destruct (diff_nonempty_run init_state) as [p|] eqn:E; vm_compute in E; [|discriminate].
  injection E as <-. eexists _, _. split; [reflexivity|]. split; [reflexivity|].
  apply (chain_check_sound 5). vm_compute. reflexivity.
Qed.

(** C9: [set_destroy] on an absent handle, or on a handle designating no
    set, dereferences NULL (undefined behaviour); on an empty set it
    succeeds and clears the handle. *)
Theorem set_destroy_null_faults {A} (st : state A) mt ds :
  set_destroy NullHandle st = None /\ set_destroy (Handle None) st = None /\
  set_destroy (Handle (Some (MkSet 0%Z mt ds None None))) st = Some (Handle None, st).
Proof. split; [|split]; reflexivity. Qed.

(** C10: [set_insert] on an absent set with a present element returns 1
    (the membership test's -1 counts as membership) and changes nothing. *)
Theorem set_insert_null_set {A} (st : state A) (e : A) :
  set_insert None (Some e) st = Some ((1%Z, None), st).
Proof. reflexivity. Qed.

(** * Further properties of the code *)

Section Extras.
Context {A : Type}.
Implicit Types (st : state A) (s : set A) (ls : list loc) (xs : list A).

(** On a well-formed set, [set_ismember] returns 1 when some member matches the
    datum and 0 otherwise, without changing the state; a NULL set or a NULL
    datum gives -1. *)
Theorem set_ismember_result st s ls xs f d :
  set_ok st s ls xs -> match_ s = Some f ->
  set_ismember (Some s) (Some d) st = Some (if mem_by f xs d then 1%Z else 0%Z, st) /\
  set_ismember (Some s) None st = Some ((-1)%Z, st) /\
  set_ismember None (Some d) st = Some ((-1)%Z, st).
Proof.
  intros Hok Hf. split; [apply (set_ismember_spec _ _ ls); assumption|].
  split; reflexivity.
Qed.

(** After [set_insert] of a datum that matches itself, [set_ismember] finds
    it in the resulting set, and every datum that was a member before is
    still a member. *)
Theorem set_insert_then_ismember st s ls xs f d :
  set_ok st s ls xs -> match_ s = Some f -> f d d = 1%Z -> alloc_ok st ->
  exists r s' st',
    set_insert (Some s) (Some d) st = Some ((r, Some s'), st') /\
    set_ismember (Some s') (Some d) st' = Some (1%Z, st') /\
    (forall y, mem_by f xs y = true -> set_ismember (Some s') (Some y) st' = Some (1%Z, st')).
Proof.
  intros Hok Hf Hdd Ha.
  destruct (mem_by f xs d) eqn:Hm.
  - exists 1%Z, s, st. split; [apply (set_insert_member _ _ ls xs f); assumption|].
    split.
    + rewrite (set_ismember_spec _ _ _ _ _ _ Hok Hf), Hm. reflexivity.
    + intros y Hy. rewrite (set_ismember_spec _ _ _ _ _ _ Hok Hf), Hy. reflexivity.
  - destruct (set_insert_new _ _ _ _ _ _ Hok Hf Hm Ha)
      as (s1 & st1 & Hins & Hok1 & Hf1 & _).
    rewrite Hf in Hf1.
    exists 0%Z, s1, st1. split; [exact Hins|]. split.
    + rewrite (set_ismember_spec _ _ _ _ _ _ Hok1 Hf1), mem_by_app. cbn.
      rewrite Hdd. cbn. rewrite orb_true_r. reflexivity.
    + intros y Hy. rewrite (set_ismember_spec _ _ _ _ _ _ Hok1 Hf1), mem_by_app, Hy. reflexivity.
Qed.

(** [set_remove] of a datum that matches no member returns -1 and leaves the
    set, the datum and the state unchanged; on a NULL set it also returns -1. *)
Theorem set_remove_nonmember st s ls xs f e :
  set_ok st s ls xs -> match_ s = Some f -> mem_by f xs e = false ->
  set_remove (Some s) (Some e) st = Some (((-1)%Z, Some s, Some e), st) /\
  set_remove None (Some e) st = Some (((-1)%Z, None, Some e), st).
Proof.
  intros Hok Hf Hm. split; [|reflexivity].
  unfold set_remove. erewrite bind_ok; [|apply (set_ismember_spec _ _ _ _ _ _ Hok Hf)].
  rewrite Hm. reflexivity.
Qed.

(** With a NULL datum, or a datum that the first member matches, [set_remove]
    unlinks the first member, frees its cell, hands back its payload,
    decrements the size and leaves a well-formed set of the other members. *)
Theorem set_remove_head st s l ls x xs d f :
  set_ok st s (l :: ls) (x :: xs) ->
  (d = None \/ (exists e, d = Some e /\ match_ s = Some f /\ f x e = 1%Z)) ->
  exists s', set_remove (Some s) d st =
      Some ((0%Z, Some s', Some x),
            MkState (heap st) (fresh st) (l :: freed st) (released st) (mallocs st)) /\
    set_ok (MkState (heap st) (fresh st) (l :: freed st) (released st) (mallocs st)) s' ls xs /\
    match_ s' = match_ s /\ destroy s' = destroy s /\ size s' = (size s - 1)%Z.
Proof. apply set_remove_first. Qed.

(** When the first matching member is neither the first nor the last one,
    [set_remove] unlinks it, frees its cell, hands back its payload and
    leaves a well-formed set of the other members, one smaller. *)
Theorem set_remove_interior st s f e pre l l' ls2 ys x x' xs2 :
  set_ok st s (pre ++ l :: l' :: ls2) (ys ++ x :: x' :: xs2) -> match_ s = Some f ->
  length pre = length ys -> ys <> [] -> Forall (fun y => f y e <> 1%Z) ys -> f x e = 1%Z ->
  exists s' st', set_remove (Some s) (Some e) st = Some ((0%Z, Some s', Some x), st') /\
    set_ok st' s' (pre ++ l' :: ls2) (ys ++ x' :: xs2) /\ size s' = (size s - 1)%Z /\
    match_ s' = match_ s /\ destroy s' = destroy s /\ freed st' = l :: freed st /\
    released st' = released st /\ fresh st' = fresh st.
Proof. apply set_remove_inner. Qed.

(** [set_remove] with a NULL datum never reports an error: on an empty set or
    a NULL set it dereferences the NULL head. *)
Theorem set_remove_null_data_empty st s :
  set_ok st s [] [] -> set_remove (Some s) None st = None /\ set_remove None None st = None.
Proof.
  intros [Hc _ _ _ _]. apply chain_nil_inv in Hc as [Hh _].
  split; [|reflexivity]. unfold set_remove. cbn. rewrite Hh. reflexivity.
Qed.

(** On a well-formed set, [set_traverse] calls [func] on the members from head
    to tail and returns 0, or returns -1 without any call when the set is
    empty; a NULL set also gives -1. *)
Theorem set_traverse_result {B} st s ls xs (func : A -> B -> B) (b : B) :
  set_ok st s ls xs ->
  set_traverse (Some s) func b st =
    Some ((match ls with [] => (-1)%Z | _ => 0%Z end, fold_left (fun b x => func x b) xs b), st) /\
  set_traverse None func b st = Some (((-1)%Z, b), st).
Proof.
  intros [Hc Hsz Htl Hnd Hb]. split; [|reflexivity].
  unfold set_traverse, set_isempty. rewrite Hsz.
  destruct ls as [|l ls'].
  - apply chain_nil_inv in Hc as [_ ->]. reflexivity.
  - assert (E : (Z.of_nat (length (l :: ls')) =? 0)%Z = false) by (apply Z.eqb_neq; simpl; lia).
    rewrite E. unfold with_fuel.
    erewrite bind_ok; [reflexivity|].
    apply (traverse_loop_spec _ _ _ _ (l :: ls')); [exact Hc|].
    pose proof (length_le_bound _ _ Hnd Hb). lia.
Qed.

(** [set_destroy] on a well-formed set frees every member cell from head to
    tail, passes each payload in order to [destroy] when it is set (none
    otherwise), and sets the handle to NULL. *)
Theorem set_destroy_result st s ls xs :
  set_ok st s ls xs ->
  exists st', set_destroy (Handle (Some s)) st = Some (Handle None, st') /\
    heap st' = heap st /\ fresh st' = fresh st /\ freed st' = rev ls ++ freed st /\
    released st' = released st ++ (match destroy s with Some _ => xs | None => [] end) /\
    mallocs st' = mallocs st.
Proof.
  intros [Hc Hsz Htl Hnd Hb]. unfold set_destroy.
  destruct (destroy_loop_spec (S (Z.to_nat (size s))) st s ls xs Hc Hsz)
    as (st' & Hrun & H); [lia|].
  exists st'. erewrite bind_ok; [|exact Hrun]. split; [reflexivity | exact H].
Qed.

(** On well-formed sets, [set_isequal] returns 1 exactly when both sets have
    the same size and every member of the first matches a member of the
    second, else 0; a NULL argument gives 0. *)
Theorem set_isequal_result st s1 s2 ls1 xs1 ls2 xs2 f :
  set_ok st s1 ls1 xs1 -> set_ok st s2 ls2 xs2 -> match_ s2 = Some f ->
  set_isequal (Some s1) (Some s2) st =
    Some (if (length xs1 =? length xs2)%nat && forallb (mem_by f xs2) xs1 then 1%Z else 0%Z, st) /\
  set_isequal None (Some s2) st = Some (0%Z, st) /\ set_isequal (Some s1) None st = Some (0%Z, st).
Proof.
  intros Hok1 Hok2 Hf. split; [apply (set_isequal_spec _ _ _ ls1 _ ls2); assumption|].
  split; reflexivity.
Qed.

(** [set_difference] of well-formed sets (with no two matching members in the
    first) returns 0 and a new well-formed set holding, in order, the
    members of the first set that match no member of the second; the inputs
    are left intact. *)
Theorem set_difference_result st h s1 s2 xs1 xs2 f g :
  match_ s1 = Some f -> input_ok st (fresh st) s1 xs1 -> nodup_by f xs1 ->
  member_ok st (fresh st) g s2 xs2 -> alloc_ok st ->
  exists u ls st',
    set_difference (Handle h) (Some s1) (Some s2) st = Some ((0%Z, Handle (Some u)), st') /\
    set_ok st' u ls (List.filter (fun x => negb (mem_by g xs2 x)) xs1) /\
    match_ u = Some f /\ destroy u = destroy s1 /\
    input_ok st' (fresh st) s1 xs1 /\ member_ok st' (fresh st) g s2 xs2.
Proof.
  intros Hf (cl & Hc & Hnd & Hb) Hnb Hs2 Ha.
  unfold set_difference.
  destruct (set_create_ok st (match_ s1) (destroy s1) Ha) as [rest [Hma Hrest]].
  erewrite bind_ok; [|exact Hma]. cbn beta iota.
  set (st1 := MkState (heap st) (S (fresh st)) (freed st) (released st) rest).
  set (out := MkSet 0%Z (match_ s1) (destroy s1) None None).
  destruct (diff_members_spec (S (fresh st1)) st1 s2 g xs2 out [] [] f (head s1) cl xs1 (fresh st))
    as (u & ls & st' & Hrun & Hok & _ & HF & Hfu & Hdu & _ & _ & _ & Hh).
  - apply (member_ok_frame st); auto. simpl. lia.
  - exact Hc.
  - exact Hnd.
  - exact Hb.
  - pose proof (length_le_bound cl _ Hnd Hb). simpl. lia.
  - split; [constructor | reflexivity | reflexivity | constructor | constructor].
  - constructor.
  - simpl. lia.
  - exact Hf.
  - exact Hrest.
  - cbn [app]. apply nodup_by_filter, Hnb.
  - exists u, ls, st'. unfold with_fuel. erewrite bind_ok; [|exact Hrun]. cbn.
    split; [reflexivity|]. split; [exact Hok|].
    split; [rewrite Hfu; exact Hf|]. split; [rewrite Hdu; reflexivity|].
    split.
    + exists cl. split; [|split; assumption].
      apply (chain_frame_below (heap st) _ _ _ _ (fresh st)); auto.
    + apply (member_ok_frame st1); [apply (member_ok_frame st); auto; simpl; lia| exact Hh | exact HF].
Qed.

(** The removal loop of [main] followed by [set_destroy] empties a well-formed
    set: it hands back every payload in insertion order, frees every cell
    and leaves the handle NULL, without reaching [error_exit]. *)
Theorem main_drain_result st s ls xs :
  set_ok st s ls xs ->
  exists st', main_drain s st = Some ((false, xs, Handle None), st') /\
    released st' = released st ++ xs /\ freed st' = rev ls ++ freed st /\
    heap st' = heap st /\ fresh st' = fresh st.
Proof. apply main_drain_spec. Qed.
(** [set_union] into a NULL output never modifies the cells of its input sets:
    they hold the same members afterwards. *)
Theorem set_union_inputs_intact st s0 ss xs0 xss f :
  match_ s0 = Some f -> input_ok st (fresh st) s0 xs0 ->
  Forall2 (input_ok st (fresh st)) ss xss -> alloc_ok st ->
  exists u st',
    set_union (Handle None) (Some s0 :: map Some ss) st = Some ((0%Z, Handle (Some u)), st') /\
    input_ok st' (fresh st) s0 xs0 /\ Forall2 (input_ok st' (fresh st)) ss xss.
Proof.
  intros Hf Hin Hins Ha.
  destruct (set_union_spec st s0 ss xs0 xss f Hf Hin Hins Ha)
    as (u & ls & st' & Hrun & _ & _ & _ & Hh).
  exists u, st'. split; [exact Hrun|]. split.
  - apply (input_ok_frame st); auto.
  - eapply Forall2_impl; [exact Hins|]. intros s' xs' H'. apply (input_ok_frame st); auto.
Qed.

(** [set_intersection] into a NULL output never modifies the cells of its
    input sets: they hold the same members afterwards. *)
Theorem set_intersection_inputs_intact st s0 ss xs0 xss f :
  match_ s0 = Some f -> input_ok st (fresh st) s0 xs0 ->
  Forall2 (member_ok st (fresh st) f) ss xss -> alloc_ok st ->
  exists u st',
    set_intersection (Handle None) (Some s0 :: map Some ss) st = Some ((0%Z, Handle (Some u)), st') /\
    input_ok st' (fresh st) s0 xs0 /\ Forall2 (input_ok st' (fresh st)) ss xss.
Proof.
  intros Hf Hin Hss Ha.
  destruct (set_intersection_spec st s0 ss xs0 xss f Hf Hin Hss Ha)
    as (u & ls & st' & Hrun & _ & _ & _ & Hh).
  exists u, st'. split; [exact Hrun|]. split.
  - apply (input_ok_frame st); auto.
  - eapply Forall2_impl; [exact Hss|]. intros s' xs' H'.
    apply (input_ok_frame st); auto. apply (member_ok_input _ _ f), H'.
Qed.

(** [set_union] into an existing empty set fills that set, deduplicating with
    the output set's own [match] function, and returns 0. *)
Theorem set_union_into_empty st o s0 ss xs0 xss g :
  set_ok st o [] [] -> match_ o = Some g -> input_ok st (fresh st) s0 xs0 ->
  Forall2 (input_ok st (fresh st)) ss xss -> alloc_ok st ->
  exists u ls st',
    set_union (Handle (Some o)) (Some s0 :: map Some ss) st = Some ((0%Z, Handle (Some u)), st') /\
    set_ok st' u ls (fold_left (add_by g) (xs0 ++ concat (xs0 :: xss)) []) /\
    match_ u = Some g /\ destroy u = destroy o.
Proof.
  intros Hok Hg Hin Hins Ha. pose proof Hok as [_ Hsz _ _ _].
  unfold set_union, set_union_func.
  erewrite bind_ok; [|apply (sets_at_drop _ 0 _ (map Some ss ++ [None])); reflexivity].
  cbn beta iota. rewrite Hsz. cbn [Z.ltb Z.compare length Z.of_nat].
  destruct (union_sets_spec (S (S (length ((Some s0 :: map Some ss) ++ [None]))))
              ((Some s0 :: map Some ss) ++ [None]) 0 s0 (s0 :: ss) xs0 (xs0 :: xss)
              st o [] [] g (fresh st))
    as (u & ls & st' & Hrun & Hok' & Hfu & Hdu & _).
  - reflexivity.
  - rewrite length_app. simpl. rewrite length_map. lia.
  - exact Hin.
  - constructor; [exact Hin | exact Hins].
  - exact Hok.
  - constructor.
  - lia.
  - exact Hg.
  - exact Ha.
  - exists u, ls, st'. change (0 <? Z.of_nat 0)%Z with false. cbv iota.
    erewrite bind_ok; [|exact Hrun]. cbn.
    split; [reflexivity|]. split; [exact Hok'|]. split; congruence.
Qed.

(** [set_union] and [set_intersection] return -1 without any effect when the
    output set already has members, when the output handle is NULL, or when
    no input set is given. *)
Theorem set_union_output_edges st o l ls xs s0 args h :
  set_ok st o (l :: ls) xs ->
  set_union (Handle (Some o)) (Some s0 :: args) st = Some (((-1)%Z, Handle (Some o)), st) /\
  set_union NullHandle (Some s0 :: args) st = Some (((-1)%Z, NullHandle), st) /\
  set_union h [] st = Some (((-1)%Z, h), st) /\
  set_intersection (Handle (Some o)) (Some s0 :: args) st = Some (((-1)%Z, Handle (Some o)), st) /\
  set_intersection NullHandle (Some s0 :: args) st = Some (((-1)%Z, NullHandle), st) /\
  set_intersection h [] st = Some (((-1)%Z, h), st).
Proof.
  intros [_ Hsz _ _ _].
  assert (E : (0 <? size o)%Z = true) by (rewrite Hsz; apply Z.ltb_lt; simpl; lia).
  unfold set_union, set_union_func, set_intersection, set_intersection_func, sets_at.
  cbn. rewrite E. destruct h; repeat split; reflexivity.
Qed.
End Extras.

(** For [int] payloads compared by [match], when the first set holds no value
    twice, [set_isequal] returns 1 exactly when the two sets hold the same
    values (in any order), else 0. *)
Theorem set_isequal_int_permutation st s1 s2 ls1 xs1 ls2 xs2 :
  set_ok st s1 ls1 xs1 -> set_ok st s2 ls2 xs2 -> match_ s2 = Some int_match -> NoDup xs1 ->
  set_isequal (Some s1) (Some s2) st = Some (if bool_decide (xs1 ≡ₚ xs2) then 1%Z else 0%Z, st).
Proof.
  intros Hok1 Hok2 Hf Hnd. rewrite (set_isequal_spec _ _ _ ls1 _ ls2 _ _ Hok1 Hok2 Hf).
  f_equal. f_equal.
  assert (Hincl : forallb (mem_by int_match xs2) xs1 = true <-> incl xs1 xs2).
  { rewrite forallb_forall. split; intros H x Hx; [apply mem_by_int_match; auto|].
    apply mem_by_int_match. auto. }
  destruct (bool_decide_reflect (xs1 ≡ₚ xs2)) as [P|NP].
  - assert (E : (length xs1 =? length xs2)%nat = true)
      by (apply Nat.eqb_eq, Permutation_length, P).
    assert (I : forallb (mem_by int_match xs2) xs1 = true).
    { apply Hincl. intros x Hx. apply (Permutation_in x P Hx). }
    rewrite E, I. reflexivity.
  - destruct ((length xs1 =? length xs2)%nat && forallb (mem_by int_match xs2) xs1) eqn:E;
      [|reflexivity].
    exfalso. apply NP. apply andb_prop in E as [E1 E2].
    apply Nat.eqb_eq in E1. apply Hincl in E2.
    apply NoDup_Permutation_bis; [apply NoDup_ListNoDup, Hnd | lia | exact E2].
Qed.

(** The standard test of [main], when it runs to its end, prints during the
    removal phase each of the values 0..9 exactly once and leaves the set
    handle NULL, without reaching [error_exit]. *)
Theorem main_run_result st rands :
  alloc_ok st -> Forall (fun r => 0 <= r)%Z rands -> main_run rands st <> None ->
  exists ys st', main_run rands st = Some ((false, ys, Handle None), st') /\
    ys ≡ₚ [0; 1; 2; 3; 4; 5; 6; 7; 8; 9]%Z.
Proof.
  intros Ha Hr Hne. unfold main_run in *.
  destruct (set_create_ok st (Some int_match) (Some (fun _ => tt)) Ha) as [rest [Hma Hrest]].
  rewrite (bind_ok _ _ _ _ _ Hma) in *. cbn beta iota in *.
  set (st1 := MkState (heap st) (S (fresh st)) (freed st) (released st) rest) in *.
  set (s0 := MkSet 0%Z (Some int_match) (Some (fun _ : Z => tt)) None None) in *.
  destruct (fill_loop (S (length rands)) rands s0 st1) as [[[rs s'] st2]|] eqn:Hfill;
    [|unfold bind in Hne; rewrite Hfill in Hne; contradiction].
  destruct (fill_loop_spec _ _ st1 s0 [] [] _ _ _
              ltac:(split; [constructor | reflexivity | reflexivity | constructor | constructor])
              eq_refl (NoDup_nil_2) (Forall_nil_2 _) Hrest Hr Hfill)
    as (ls' & ys & Hok & _ & Hnd & Hrng & Hlen).
  destruct (main_drain_spec st2 s' ls' ys Hok) as (st' & Hdr & Hrl & _).
  exists ys, st'. rewrite (bind_ok _ _ _ _ _ Hfill). cbn beta iota.
  split; [exact Hdr | apply digits_perm; assumption].
Qed.

Lemma set_ismember_result_witness :
  let st := ex_state [[1; 2]]%Z in
  let s := ex_set [[1; 2]]%Z 0 in
  (set_ok st s [1; 2]%nat [1; 2]%Z /\ match_ s = Some int_match) /\
  (set_ismember (Some s) (Some 2%Z) st =
     Some (if mem_by int_match [1; 2]%Z 2%Z then 1%Z else 0%Z, st) /\
   set_ismember (Some s) None st = Some ((-1)%Z, st) /\
   set_ismember None (Some 2%Z) st = Some ((-1)%Z, st)).
Proof.
  intros st s.
  assert (Hok : set_ok st s [1; 2]%nat [1; 2]%Z)
    by (apply set_ok_check_sound; vm_compute; reflexivity).
  assert (Hf : match_ s = Some int_match) by (vm_compute; reflexivity).
  exact (conj (conj Hok Hf) (set_ismember_result st s _ _ int_match 2%Z Hok Hf)).
Defined.

Lemma set_insert_then_ismember_witness :
  let st := ex_state [[1; 2]]%Z in
  let s := ex_set [[1; 2]]%Z 0 in
  (set_ok st s [1; 2]%nat [1; 2]%Z /\ match_ s = Some int_match /\
   int_match 3 3 = 1%Z /\ alloc_ok st) /\
  (exists r s' st',
    set_insert (Some s) (Some 3%Z) st = Some ((r, Some s'), st') /\
    set_ismember (Some s') (Some 3%Z) st' = Some (1%Z, st') /\
    (forall y, mem_by int_match [1; 2]%Z y = true ->
       set_ismember (Some s') (Some y) st' = Some (1%Z, st'))).
Proof.
  intros st s.
  assert (Hok : set_ok st s [1; 2]%nat [1; 2]%Z)
    by (apply set_ok_check_sound; vm_compute; reflexivity).
  assert (Hf : match_ s = Some int_match) by (vm_compute; reflexivity).
  assert (Hdd : int_match 3 3 = 1%Z) by reflexivity.
  assert (Ha : alloc_ok st) by (vm_compute; constructor).
  exact (conj (conj Hok (conj Hf (conj Hdd Ha)))
              (set_insert_then_ismember st s _ _ int_match 3%Z Hok Hf Hdd Ha)).
Defined.

Lemma set_remove_nonmember_witness :
  let st := ex_state [[1; 2]]%Z in
  let s := ex_set [[1; 2]]%Z 0 in
  (set_ok st s [1; 2]%nat [1; 2]%Z /\ match_ s = Some int_match /\
   mem_by int_match [1; 2]%Z 5%Z = false) /\
  (set_remove (Some s) (Some 5%Z) st = Some (((-1)%Z, Some s, Some 5%Z), st) /\
   set_remove None (Some 5%Z) st = Some (((-1)%Z, None, Some 5%Z), st)).
Proof.
  intros st s.
  assert (Hok : set_ok st s [1; 2]%nat [1; 2]%Z)
    by (apply set_ok_check_sound; vm_compute; reflexivity).
  assert (Hf : match_ s = Some int_match) by (vm_compute; reflexivity).
  assert (Hm : mem_by int_match [1; 2]%Z 5%Z = false) by reflexivity.
  exact (conj (conj Hok (conj Hf Hm)) (set_remove_nonmember st s _ _ int_match 5%Z Hok Hf Hm)).
Defined.

Lemma set_remove_head_witness :
  let st := ex_state [[1; 2]]%Z in
  let s := ex_set [[1; 2]]%Z 0 in
  (set_ok st s [1; 2]%nat [1; 2]%Z /\
   (Some 1%Z = None \/ (exists e, Some 1%Z = Some e /\ match_ s = Some int_match /\
                                   int_match 1 e = 1%Z))) /\
  (exists s', set_remove (Some s) (Some 1%Z) st =
      Some ((0%Z, Some s', Some 1%Z),
            MkState (heap st) (fresh st) (1%nat :: freed st) (released st) (mallocs st)) /\
    set_ok (MkState (heap st) (fresh st) (1%nat :: freed st) (released st) (mallocs st))
      s' [2%nat] [2%Z] /\
    match_ s' = match_ s /\ destroy s' = destroy s /\ size s' = (size s - 1)%Z).
Proof.
  intros st s.
  assert (Hok : set_ok st s [1; 2]%nat [1; 2]%Z)
    by (apply set_ok_check_sound; vm_compute; reflexivity).
  assert (Hd : Some 1%Z = None \/ (exists e, Some 1%Z = Some e /\ match_ s = Some int_match /\
                                   int_match 1 e = 1%Z)).
  { right. exists 1%Z. split; [reflexivity|]. split; [vm_compute; reflexivity | reflexivity]. }
  exact (conj (conj Hok Hd) (set_remove_head st s 1%nat [2%nat] 1%Z [2%Z] (Some 1%Z) int_match Hok Hd)).
Defined.

Lemma set_remove_interior_witness :
  let st := ex_state [[1; 2; 3]]%Z in
  let s := ex_set [[1; 2; 3]]%Z 0 in
  (set_ok st s ([1] ++ 2 :: 3 :: [])%nat ([1] ++ 2 :: 3 :: [])%Z /\ match_ s = Some int_match /\
   length [1%nat] = length [1%Z] /\ [1%Z] <> [] /\
   Forall (fun y => int_match y 2 <> 1%Z) [1%Z] /\ int_match 2 2 = 1%Z) /\
  (exists s' st', set_remove (Some s) (Some 2%Z) st = Some ((0%Z, Some s', Some 2%Z), st') /\
    set_ok st' s' ([1] ++ 3 :: [])%nat ([1] ++ 3 :: [])%Z /\ size s' = (size s - 1)%Z /\
    match_ s' = match_ s /\ destroy s' = destroy s /\ freed st' = 2%nat :: freed st /\
    released st' = released st /\ fresh st' = fresh st).
Proof.
  intros st s.
  assert (Hok : set_ok st s ([1] ++ 2 :: 3 :: [])%nat ([1] ++ 2 :: 3 :: [])%Z)
    by (apply set_ok_check_sound; vm_compute; reflexivity).
  assert (Hf : match_ s = Some int_match) by (vm_compute; reflexivity).
  assert (Hl : length [1%nat] = length [1%Z]) by reflexivity.
  assert (Hne : [1%Z] <> []) by discriminate.
  assert (Hys : Forall (fun y => int_match y 2 <> 1%Z) [1%Z])
    by (constructor; [discriminate | constructor]).
  assert (Hx : int_match 2 2 = 1%Z) by reflexivity.
  exact (conj (conj Hok (conj Hf (conj Hl (conj Hne (conj Hys Hx)))))
    (set_remove_interior st s int_match 2%Z [1%nat] 2%nat 3%nat [] [1%Z] 2%Z 3%Z []
       Hok Hf Hl Hne Hys Hx)).
Defined.

Lemma set_remove_null_data_empty_witness :
  let st := ex_state [[]]%Z in
  let s := ex_set [[]]%Z 0 in
  set_ok st s [] [] /\ (set_remove (Some s) None st = None /\ set_remove None None st = None).
Proof.
  intros st s.
  assert (Hok : set_ok st s [] []) by (apply set_ok_check_sound; vm_compute; reflexivity).
  exact (conj Hok (set_remove_null_data_empty st s Hok)).
Defined.

Lemma set_traverse_result_witness :
  let st := ex_state [[1; 2]]%Z in
  let s := ex_set [[1; 2]]%Z 0 in
  set_ok st s [1; 2]%nat [1; 2]%Z /\
  (set_traverse (Some s) Z.add 0%Z st = Some ((0%Z, 3%Z), st) /\
   set_traverse None Z.add 0%Z st = Some (((-1)%Z, 0%Z), st)).
Proof.
  intros st s.
  assert (Hok : set_ok st s [1; 2]%nat [1; 2]%Z)
    by (apply set_ok_check_sound; vm_compute; reflexivity).
  exact (conj Hok (set_traverse_result st s _ _ Z.add 0%Z Hok)).
Defined.

Lemma set_destroy_result_witness :
  let st := ex_state [[1; 2]]%Z in
  let s := ex_set [[1; 2]]%Z 0 in
  set_ok st s [1; 2]%nat [1; 2]%Z /\
  (exists st', set_destroy (Handle (Some s)) st = Some (Handle None, st') /\
    heap st' = heap st /\ fresh st' = fresh st /\ freed st' = rev [1; 2]%nat ++ freed st /\
    released st' = released st ++ (match destroy s with Some _ => [1; 2]%Z | None => [] end) /\
    mallocs st' = mallocs st).
Proof.
  intros st s.
  assert (Hok : set_ok st s [1; 2]%nat [1; 2]%Z)
    by (apply set_ok_check_sound; vm_compute; reflexivity).
  exact (conj Hok (set_destroy_result st s _ _ Hok)).
Defined.

Lemma set_isequal_result_witness :
  let xss := [[1; 2]; [2; 1]]%Z in
  let st := ex_state xss in
  let a := ex_set xss 0 in
  let b := ex_set xss 1 in
  (set_ok st a [1; 2]%nat [1; 2]%Z /\ set_ok st b [4; 5]%nat [2; 1]%Z /\
   match_ b = Some int_match) /\
  (set_isequal (Some a) (Some b) st = Some (1%Z, st) /\
   set_isequal None (Some b) st = Some (0%Z, st) /\ set_isequal (Some a) None st = Some (0%Z, st)).
Proof.
  intros xss st a b.
  assert (Ha : set_ok st a [1; 2]%nat [1; 2]%Z)
    by (apply set_ok_check_sound; vm_compute; reflexivity).
  assert (Hb : set_ok st b [4; 5]%nat [2; 1]%Z)
    by (apply set_ok_check_sound; vm_compute; reflexivity).
  assert (Hf : match_ b = Some int_match) by (vm_compute; reflexivity).
  exact (conj (conj Ha (conj Hb Hf)) (set_isequal_result st a b _ _ _ _ int_match Ha Hb Hf)).
Defined.

Lemma set_difference_result_witness :
  let xss := [[0; 1; 2]; [2; 4; 6]]%Z in
  let st := ex_state xss in
  let a := ex_set xss 0 in
  let b := ex_set xss 1 in
  (match_ a = Some int_match /\ input_ok st (fresh st) a [0; 1; 2]%Z /\
   nodup_by int_match [0; 1; 2]%Z /\ member_ok st (fresh st) int_match b [2; 4; 6]%Z /\
   alloc_ok st) /\
  (exists u ls st',
    set_difference (Handle None) (Some a) (Some b) st = Some ((0%Z, Handle (Some u)), st') /\
    set_ok st' u ls [0; 1]%Z /\
    match_ u = Some int_match /\ destroy u = destroy a /\
    input_ok st' (fresh st) a [0; 1; 2]%Z /\ member_ok st' (fresh st) int_match b [2; 4; 6]%Z).
Proof.
  intros xss st a b.
  assert (Hf : match_ a = Some int_match) by (vm_compute; reflexivity).
  assert (Ha : input_ok st (fresh st) a [0; 1; 2]%Z)
    by (apply (set_ok_check_input st a [1; 2; 3]%nat); vm_compute; reflexivity).
  assert (Hnb : nodup_by int_match [0; 1; 2]%Z).
  { cbn. repeat split; repeat constructor; discriminate. }
  assert (Hb : member_ok st (fresh st) int_match b [2; 4; 6]%Z)
    by (apply (set_ok_check_member st b [5; 6; 7]%nat); vm_compute; reflexivity).
  assert (Hal : alloc_ok st) by (vm_compute; constructor).
  exact (conj (conj Hf (conj Ha (conj Hnb (conj Hb Hal))))
    (set_difference_result st None a b _ _ int_match int_match Hf Ha Hnb Hb Hal)).
Defined.

Lemma main_drain_result_witness :
  let st := ex_state [[1; 2]]%Z in
  let s := ex_set [[1; 2]]%Z 0 in
  set_ok st s [1; 2]%nat [1; 2]%Z /\
  (exists st', main_drain s st = Some ((false, [1; 2]%Z, Handle None), st') /\
    released st' = released st ++ [1; 2]%Z /\ freed st' = rev [1; 2]%nat ++ freed st /\
    heap st' = heap st /\ fresh st' = fresh st).
Proof.
  intros st s.
  assert (Hok : set_ok st s [1; 2]%nat [1; 2]%Z)
    by (apply set_ok_check_sound; vm_compute; reflexivity).
  exact (conj Hok (main_drain_result st s _ _ Hok)).
Defined.

Lemma set_union_inputs_intact_witness :
  let xss := [[0; 1; 2]; [2; 4; 6]]%Z in
  let st := ex_state xss in
  let a := ex_set xss 0 in
  let b := ex_set xss 1 in
  (match_ a = Some int_match /\ input_ok st (fresh st) a [0; 1; 2]%Z /\
   Forall2 (input_ok st (fresh st)) [b] [[2; 4; 6]%Z] /\ alloc_ok st) /\
  (exists u st',
    set_union (Handle None) (Some a :: map Some [b]) st = Some ((0%Z, Handle (Some u)), st') /\
    input_ok st' (fresh st) a [0; 1; 2]%Z /\ Forall2 (input_ok st' (fresh st)) [b] [[2; 4; 6]%Z]).
Proof.
  intros xss st a b.
  assert (Hf : match_ a = Some int_match) by (vm_compute; reflexivity).
  assert (Ha : input_ok st (fresh st) a [0; 1; 2]%Z)
    by (apply (set_ok_check_input st a [1; 2; 3]%nat); vm_compute; reflexivity).
  assert (Hb : Forall2 (input_ok st (fresh st)) [b] [[2; 4; 6]%Z]).
  { constructor; [|constructor].
    apply (set_ok_check_input st b [5; 6; 7]%nat); vm_compute; reflexivity. }
  assert (Hal : alloc_ok st) by (vm_compute; constructor).
  exact (conj (conj Hf (conj Ha (conj Hb Hal)))
    (set_union_inputs_intact st a [b] _ _ int_match Hf Ha Hb Hal)).
Defined.

Lemma set_intersection_inputs_intact_witness :
  let xss := [[0; 1; 2]; [2; 4; 6]]%Z in
  let st := ex_state xss in
  let a := ex_set xss 0 in
  let b := ex_set xss 1 in
  (match_ a = Some int_match /\ input_ok st (fresh st) a [0; 1; 2]%Z /\
   Forall2 (member_ok st (fresh st) int_match) [b] [[2; 4; 6]%Z] /\ alloc_ok st) /\
  (exists u st',
    set_intersection (Handle None) (Some a :: map Some [b]) st =
      Some ((0%Z, Handle (Some u)), st') /\
    input_ok st' (fresh st) a [0; 1; 2]%Z /\ Forall2 (input_ok st' (fresh st)) [b] [[2; 4; 6]%Z]).
Proof.
  intros xss st a b.
  assert (Hf : match_ a = Some int_match) by (vm_compute; reflexivity).
  assert (Ha : input_ok st (fresh st) a [0; 1; 2]%Z)
    by (apply (set_ok_check_input st a [1; 2; 3]%nat); vm_compute; reflexivity).
  assert (Hb : Forall2 (member_ok st (fresh st) int_match) [b] [[2; 4; 6]%Z]).
  { constructor; [|constructor].
    apply (set_ok_check_member st b [5; 6; 7]%nat); vm_compute; reflexivity. }
  assert (Hal : alloc_ok st) by (vm_compute; constructor).
  exact (conj (conj Hf (conj Ha (conj Hb Hal)))
    (set_intersection_inputs_intact st a [b] _ _ int_match Hf Ha Hb Hal)).
Defined.

Lemma set_union_into_empty_witness :
  let xss := [[]; [0; 1; 2]; [2; 4; 6]]%Z in
  let st := ex_state xss in
  let o := ex_set xss 0 in
  let a := ex_set xss 1 in
  let b := ex_set xss 2 in
  (set_ok st o [] [] /\ match_ o = Some int_match /\ input_ok st (fresh st) a [0; 1; 2]%Z /\
   Forall2 (input_ok st (fresh st)) [b] [[2; 4; 6]%Z] /\ alloc_ok st) /\
  (exists u ls st',
    set_union (Handle (Some o)) (Some a :: map Some [b]) st = Some ((0%Z, Handle (Some u)), st') /\
    set_ok st' u ls (fold_left (add_by int_match) ([0; 1; 2] ++ concat ([0; 1; 2] :: [[2; 4; 6]]))%Z []) /\
    match_ u = Some int_match /\ destroy u = destroy o).
Proof.
  intros xss st o a b.
  assert (Ho : set_ok st o [] []) by (apply set_ok_check_sound; vm_compute; reflexivity).
  assert (Hg : match_ o = Some int_match) by (vm_compute; reflexivity).
  assert (Ha : input_ok st (fresh st) a [0; 1; 2]%Z)
    by (apply (set_ok_check_input st a [2; 3; 4]%nat); vm_compute; reflexivity).
  assert (Hb : Forall2 (input_ok st (fresh st)) [b] [[2; 4; 6]%Z]).
  { constructor; [|constructor].
    apply (set_ok_check_input st b [6; 7; 8]%nat); vm_compute; reflexivity. }
  assert (Hal : alloc_ok st) by (vm_compute; constructor).
  exact (conj (conj Ho (conj Hg (conj Ha (conj Hb Hal))))
    (set_union_into_empty st o a [b] _ _ int_match Ho Hg Ha Hb Hal)).
Defined.

Lemma set_union_output_edges_witness :
  let st := ex_state [[1; 2]]%Z in
  let o := ex_set [[1; 2]]%Z 0 in
  set_ok st o [1; 2]%nat [1; 2]%Z /\
  (set_union (Handle (Some o)) [Some o] st = Some (((-1)%Z, Handle (Some o)), st) /\
   set_union NullHandle [Some o] st = Some (((-1)%Z, NullHandle), st) /\
   set_union NullHandle [] st = Some (((-1)%Z, NullHandle), st) /\
   set_intersection (Handle (Some o)) [Some o] st = Some (((-1)%Z, Handle (Some o)), st) /\
   set_intersection NullHandle [Some o] st = Some (((-1)%Z, NullHandle), st) /\
   set_intersection NullHandle [] st = Some (((-1)%Z, NullHandle), st)).
Proof.
  intros st o.
  assert (Hok : set_ok st o [1; 2]%nat [1; 2]%Z)
    by (apply set_ok_check_sound; vm_compute; reflexivity).
  exact (conj Hok (set_union_output_edges st o 1%nat [2%nat] _ o [] NullHandle Hok)).
Defined.

Lemma set_isequal_int_permutation_witness :
  let xss := [[1; 2]; [2; 1]]%Z in
  let st := ex_state xss in
  let a := ex_set xss 0 in
  let b := ex_set xss 1 in
  (set_ok st a [1; 2]%nat [1; 2]%Z /\ set_ok st b [4; 5]%nat [2; 1]%Z /\
   match_ b = Some int_match /\ NoDup [1; 2]%Z) /\
  set_isequal (Some a) (Some b) st =
    Some (if bool_decide ([1; 2]%Z ≡ₚ [2; 1]%Z) then 1%Z else 0%Z, st).
Proof.
  intros xss st a b.
  assert (Ha : set_ok st a [1; 2]%nat [1; 2]%Z)
    by (apply set_ok_check_sound; vm_compute; reflexivity).
  assert (Hb : set_ok st b [4; 5]%nat [2; 1]%Z)
    by (apply set_ok_check_sound; vm_compute; reflexivity).
  assert (Hf : match_ b = Some int_match) by (vm_compute; reflexivity).
  assert (Hnd : NoDup [1; 2]%Z) by (apply (bool_decide_unpack _); vm_compute; reflexivity).
  exact (conj (conj Ha (conj Hb (conj Hf Hnd)))
    (set_isequal_int_permutation st a b _ _ _ _ Ha Hb Hf Hnd)).
Defined.

Lemma main_run_result_witness :
  let rands := [3; 13; 5; 0; 1; 2; 4; 6; 7; 8; 9; 5]%Z in
  (alloc_ok init_state /\ Forall (fun r => 0 <= r)%Z rands /\ main_run rands init_state <> None) /\
  (exists ys st', main_run rands init_state = Some ((false, ys, Handle None), st') /\
    ys ≡ₚ [0; 1; 2; 3; 4; 5; 6; 7; 8; 9]%Z).
Proof.
  intros rands.
  assert (Ha : alloc_ok init_state) by constructor.
  assert (Hr : Forall (fun r => 0 <= r)%Z rands) by (repeat constructor; lia).
  assert (Hne : main_run rands init_state <> None) by (vm_compute; discriminate).
  exact (conj (conj Ha (conj Hr Hne)) (main_run_result init_state rands Ha Hr Hne)).
Defined.
